(** * wormpy: [modules/utils/utils.py]

    A shallow embedding of the scraper's utility module: the per-domain
    asynchronous rate limiter [AsyncRateLimiter], the progress report
    [get_scraping_stats] and the result formatter [format_output].

    Conventions of the embedding.
    - A Python [float] holding a time or a duration is a rational [Q]:
      the arithmetic of the limiter (one subtraction, one comparison) is
      taken exactly, rounding is not modelled.
    - A Python [str] is a [string]; each [ascii] stands for one character,
      so that the order on strings is Python's order on [str].
    - The two coroutines are programs over a signature of events (clock,
      random generator, sleep, the limiter object, the URL tracker); the
      events are answered by a handler that threads the state of the
      process and consults an environment.
    - [format_output] runs in a state-and-exception monad over a store of
      dictionary objects, because it writes into objects its caller holds. *)

From Stdlib Require Import QArith Lqa Ascii.
From stdpp Require Import gmap strings list functions sorting pretty.

Set Warnings "-register-all".
Local Open Scope string_scope.

(** ** Python values and exceptions *)

(** The values that occur in scrape results: what [json] can serialise.
    A [dict] value keeps its insertion order, so it is an association list. *)
Inductive pyval : Type :=
| PyNone
| PyBool (b : bool)
| PyInt (n : Z)
| PyStr (s : string)
| PyList (l : list pyval)
| PyDict (d : list (string * pyval)).

(** The exceptions that the module's code can let escape. *)
Inductive exn : Type :=
| ValueError (msg : string)
| KeyError (key : string)
| TypeError
| AttributeError
| CancelledError
| RuntimeError (msg : string).

(** ** Coroutines *)

(** What a coroutine of this module asks of its surroundings. *)
Inductive eff : Type -> Type :=
| time_time : eff Q
| random_uniform (a b : Q) : eff Q
| asyncio_sleep (s : Q) : eff unit
| self_min_delay : eff Q
| self_max_delay : eff Q
| last_request_times_getitem (domain : string) : eff Q
| last_request_times_setitem (domain : string) (t : Q) : eff unit
| url_tracker_get_pool_size : eff pyval
| url_tracker_get_visited_count : eff pyval
| url_tracker_is_pool_empty : eff pyval.

Inductive prog (A : Type) : Type :=
| Ret (a : A)
| Vis {R : Type} (e : eff R) (k : R -> prog A).

Arguments Ret {A} a.
Arguments Vis {A R} e k.

Fixpoint bind {A B : Type} (p : prog A) (f : A -> prog B) : prog B :=
  match p with
  | Ret a => f a
  | Vis e k => Vis e (fun r => bind (k r) f)
  end.

Definition call {R : Type} (e : eff R) : prog R := Vis e Ret.

#[export] Instance prog_ret : MRet prog := @Ret.
#[export] Instance prog_bind : MBind prog := fun A B f p => bind p f.

(** ** [AsyncRateLimiter] *)

Record AsyncRateLimiter : Type := mkLimiter {
  min_delay : Q;
  max_delay : Q;
  last_request_times : gmap string Q
}.

(** [__init__]: the ledger is [defaultdict(float)], empty at first. *)
Definition init (min_delay max_delay : Q) : AsyncRateLimiter :=
  mkLimiter min_delay max_delay ∅.

(** [async def wait(self, domain)] *)
Definition wait (domain : string) : prog unit :=
  current_time ← call time_time;
  last ← call (last_request_times_getitem domain);
  let elapsed := (current_time - last)%Q in
  lo ← call self_min_delay;
  hi ← call self_max_delay;
  delay ← call (random_uniform lo hi);
  (if Qlt_le_dec elapsed delay
   then call (asyncio_sleep (delay - elapsed)%Q)
   else mret tt);;
  now ← call time_time;
  call (last_request_times_setitem domain now).

(** ** [get_scraping_stats] *)

(** [async def get_scraping_stats()]: a dict display evaluates its values
    from left to right. *)
Definition get_scraping_stats : prog pyval :=
  pool_size ← call url_tracker_get_pool_size;
  visited ← call url_tracker_get_visited_count;
  empty ← call url_tracker_is_pool_empty;
  mret (PyDict [("urls_in_pool", pool_size);
                ("urls_visited", visited);
                ("is_pool_empty", empty)]).

(** ** The URL tracker *)

(** [modules.utils.url_tracker] is a collaborator of this module: its three
    asynchronous reads are an interface here.  A read answers with a value
    or raises, and may change the tracker's own state. *)
Class UrlTracker (T : Type) : Type := {
  get_pool_size : T -> (exn + pyval) * T;
  get_visited_count : T -> (exn + pyval) * T;
  is_pool_empty : T -> (exn + pyval) * T
}.

(** Modelled from the spec: the URL tracking store (its module is not among
    the sources), a pool of pending URLs and a set of visited URLs; a store
    that was never initialised fails every read. *)
Record url_store : Type := mkStore {
  initialized : bool;
  pool : list string;
  visited : list string
}.

Definition store_read (f : url_store -> pyval) (s : url_store)
  : (exn + pyval) * url_store :=
  if initialized s then (inr (f s), s)
  else (inl (RuntimeError "url tracker is not initialized"), s).

#[export] Instance url_store_tracker : UrlTracker url_store := {
  get_pool_size := store_read (fun s => PyInt (Z.of_nat (length (pool s))));
  get_visited_count := store_read (fun s => PyInt (Z.of_nat (length (visited s))));
  is_pool_empty := store_read (fun s => PyBool (bool_decide (pool s = [])))
}.

(** ** The process and its environment *)

(** What the surroundings decide, one answer per interaction (numbered by
    [tick]): the time that went by since the previous interaction, the
    value of [random.random()], by how much a sleep overshoots, and
    whether the task is cancelled while it sleeps. *)
Record env : Type := mkEnv {
  elapse : nat -> Q;
  draw : nat -> Q;
  overshoot : nat -> Q;
  cancelled : nat -> bool
}.

(** What an observer of the process sees. *)
Inductive obs : Type :=
| ObsTime (t : Q)
| ObsUniform (a b r : Q)
| ObsSleep (s : Q)
| ObsCancelled (s : Q)
| ObsTrackerRead (name : string).

Record world (T : Type) : Type := mkWorld {
  limiter : AsyncRateLimiter;
  tracker : T;
  clock : Q;
  tick : nat;
  trace : list obs
}.

Arguments mkWorld {T} _ _ _ _ _.
Arguments limiter {T} _.
Arguments tracker {T} _.
Arguments clock {T} _.
Arguments tick {T} _.
Arguments trace {T} _.

(** [random.uniform(a, b)] is [a + (b - a) * random()]. *)
Definition uniform (a b u : Q) : Q := (a + (b - a) * u)%Q.

(** [asyncio.sleep(s)] sleeps for [s] when [s] is positive and only
    yields otherwise. *)
Definition sleep_time (s : Q) : Q := if Qlt_le_dec 0 s then s else 0%Q.

(** The durations for which the process was put to sleep. *)
Definition sleeps (tr : list obs) : list Q :=
  omap (fun o => match o with
                 | ObsSleep s | ObsCancelled s => Some s
                 | _ => None
                 end) tr.


Section Handler.
Context {T : Type} `{UrlTracker T}.
Variable E : env.

Definition observe (o : obs) (w : world T) : world T :=
  mkWorld (limiter w) (tracker w) (clock w) (S (tick w)) (trace w ++ [o])%list.

Definition set_clock (t : Q) (w : world T) : world T :=
  mkWorld (limiter w) (tracker w) t (tick w) (trace w).

Definition set_ledger (m : gmap string Q) (w : world T) : world T :=
  mkWorld (mkLimiter (min_delay (limiter w)) (max_delay (limiter w)) m)
          (tracker w) (clock w) (tick w) (trace w).

Definition set_tracker (s : T) (w : world T) : world T :=
  mkWorld (limiter w) s (clock w) (tick w) (trace w).

(** What [time.time()] answers when asked in [w]. *)
Definition reading (w : world T) : Q := (clock w + elapse E (tick w))%Q.

Definition tracker_read (name : string) (read : T -> (exn + pyval) * T)
    (w : world T) : (exn + pyval) * world T :=
  let w := observe (ObsTrackerRead name) w in
  let '(r, s) := read (tracker w) in (r, set_tracker s w).

Definition handle {R : Type} (e : eff R) (w : world T) : (exn + R) * world T :=
  match e in eff R return (exn + R) * world T with
  | time_time =>
      let t := reading w in
      (inr t, observe (ObsTime t) (set_clock t w))
  | random_uniform a b =>
      let r := uniform a b (draw E (tick w)) in
      (inr r, observe (ObsUniform a b r) w)
  | asyncio_sleep s =>
      if cancelled E (tick w)
      then (inl CancelledError, observe (ObsCancelled s) w)
      else
        let t := (clock w + sleep_time s + overshoot E (tick w))%Q in
        (inr tt, observe (ObsSleep s) (set_clock t w))
  | self_min_delay => (inr (min_delay (limiter w)), w)
  | self_max_delay => (inr (max_delay (limiter w)), w)
  | last_request_times_getitem domain =>
      (* a [defaultdict(float)]: a missing key is created with [0.0] *)
      match last_request_times (limiter w) !! domain with
      | Some t => (inr t, w)
      | None =>
          (inr 0%Q, set_ledger (<[domain := 0%Q]> (last_request_times (limiter w))) w)
      end
  | last_request_times_setitem domain t =>
      (inr tt, set_ledger (<[domain := t]> (last_request_times (limiter w))) w)
  | url_tracker_get_pool_size => tracker_read "get_pool_size" get_pool_size w
  | url_tracker_get_visited_count =>
      tracker_read "get_visited_count" get_visited_count w
  | url_tracker_is_pool_empty => tracker_read "is_pool_empty" is_pool_empty w
  end.

(** Running a coroutine: an exception raised at an event is not caught
    by anything in this module, so it ends the run. *)
Fixpoint run {A : Type} (p : prog A) (w : world T) : (exn + A) * world T :=
  match p with
  | Ret a => (inr a, w)
  | Vis e k =>
      match handle e w with
      | (inl x, w') => (inl x, w')
      | (inr r, w') => run (k r) w'
      end
  end.
End Handler.

(** The ledger of a process, and what a read of it at [domain] leaves
    behind: the entry that was there, or a new entry [0.0]. *)
Definition ledger {T : Type} (w : world T) : gmap string Q :=
  last_request_times (limiter w).

Definition entry (m : gmap string Q) (domain : string) : Q :=
  default 0%Q (m !! domain).

Definition touch (domain : string) (m : gmap string Q) : gmap string Q :=
  match m !! domain with
  | Some _ => m
  | None => <[domain := 0%Q]> m
  end.

(** An environment that behaves: time does not run backwards, a sleep
    lasts at least as long as asked, [random()] is in the unit interval. *)
Definition well_behaved (E : env) : Prop :=
  forall n, (0 <= elapse E n)%Q /\ (0 <= overshoot E n)%Q /\
            (0 <= draw E n)%Q /\ (draw E n < 1)%Q.

Definition never_cancelled (E : env) : Prop :=
  forall n, cancelled E n = false.

(** ** [format_output] *)

(** *** The store of dictionary objects

    The values of [results] are dictionary objects that the caller holds
    too: [results] maps a URL to the address of its entry, and the store
    gives the contents of every object. *)
Definition loc : Type := nat.
Definition heap : Type := loc -> gmap string pyval.

(** Computations that read and write the store and may raise. *)
Definition M (A : Type) : Type := heap -> (exn + A) * heap.

#[export] Instance M_ret : MRet M := fun A a h => (inr a, h).
#[export] Instance M_bind : MBind M := fun A B f m h =>
  match m h with
  | (inl e, h') => (inl e, h')
  | (inr a, h') => f a h'
  end.

Definition raise {A : Type} (e : exn) : M A := fun h => (inl e, h).

(** [key in data] *)
Definition contains (data : loc) (key : string) : M bool :=
  fun h => (inr (bool_decide (is_Some (h data !! key))), h).

(** [data[key]] *)
Definition getitem (data : loc) (key : string) : M pyval :=
  fun h => match h data !! key with
           | Some v => (inr v, h)
           | None => (inl (KeyError key), h)
           end.

(** [data.get(key, default)] *)
Definition get (data : loc) (key : string) (default : pyval) : M pyval :=
  fun h => (inr (from_option id default (h data !! key)), h).

(** [data[key] = v] *)
Definition setitem (data : loc) (key : string) (v : pyval) : M unit :=
  fun h => (inr tt, <[data := <[key := v]> (h data)]> h).

(** [v.items()]: only a [dict] has the method. *)
Definition items (v : pyval) : M (list (string * pyval)) :=
  match v with
  | PyDict d => mret d
  | _ => raise AttributeError
  end.

(** [for x in xs: acc = body(x, acc)] *)
Fixpoint for_in {X S : Type} (xs : list X) (body : X -> S -> M S) (acc : S) : M S :=
  match xs with
  | [] => mret acc
  | x :: xs => acc' ← body x acc; for_in xs body acc'
  end.

(** *** Library functions *)

(** [sorted(results.items())]: the keys of a dict are distinct, so the
    pairs are ordered by their keys alone. *)
Definition sorted_items (results : gmap string loc) : list (string * loc) :=
  merge_sort (fun p q => String.le p.1 q.1) (map_to_list results).

(** [d[k] = v] on a dict that keeps insertion order. *)
Fixpoint dict_setitem (k : string) (v : pyval) (d : list (string * pyval))
  : list (string * pyval) :=
  match d with
  | [] => [(k, v)]
  | (k', v') :: d => if decide (k' = k) then (k, v) :: d
                     else (k', v') :: dict_setitem k v d
  end.

Definition as_str (v : pyval) : option string :=
  match v with PyStr s => Some s | _ => None end.

Definition chars (s : string) : list string :=
  (fun c => String c "") <$> String.list_ascii_of_string s.

(** [sep.join(v)]: [v] is iterated (a list yields its elements, a dict its
    keys, a str its characters) and every element must be a str. *)
Definition join (sep : string) (v : pyval) : M string :=
  match v with
  | PyList l =>
      match mapM as_str l with
      | Some ss => mret (String.concat sep ss)
      | None => raise TypeError
      end
  | PyDict d => mret (String.concat sep (d.*1))
  | PyStr s => mret (String.concat sep (chars s))
  | _ => raise TypeError
  end.

Definition quote : ascii := ascii_of_N 34.
Definition backslash : ascii := ascii_of_N 92.

Definition hex_digit (n : N) : ascii :=
  default "0"%char (String.list_ascii_of_string "0123456789abcdef" !! N.to_nat n).

(** The escapes of [json.dumps] with [ensure_ascii=True]. *)
Definition json_escape (c : ascii) : string :=
  let n := N_of_ascii c in
  if (n =? 34)%N then String backslash (String quote "")
  else if (n =? 92)%N then String backslash (String backslash "")
  else if (n =? 8)%N then String backslash "b"
  else if (n =? 12)%N then String backslash "f"
  else if (n =? 10)%N then String backslash "n"
  else if (n =? 13)%N then String backslash "r"
  else if (n =? 9)%N then String backslash "t"
  else if ((32 <=? n) && (n <=? 126))%N then String c ""
  else String backslash
         ("u00" +:+ String (hex_digit (n / 16)) (String (hex_digit (n mod 16)) "")).

Definition json_string (s : string) : string :=
  String quote (String.concat "" (json_escape <$> String.list_ascii_of_string s))
    +:+ String quote "".

(** [json.dumps(v)] with the default separators. *)
Fixpoint json_dumps (v : pyval) : string :=
  match v with
  | PyNone => "null"
  | PyBool true => "true"
  | PyBool false => "false"
  | PyInt n => pretty n
  | PyStr s => json_string s
  | PyList l => "[" +:+ String.concat ", " (map json_dumps l) +:+ "]"
  | PyDict d =>
      "{" +:+ String.concat ", "
                (map (fun kv => json_string kv.1 +:+ ": " +:+ json_dumps kv.2) d)
          +:+ "}"
  end.

(** *** The function *)

Inductive output : Type :=
| CsvTable (rows : list (list pyval))
| JsonClean (clean_results : list (string * pyval))
| JsonRefs (sorted_results : list (string * loc)).

Definition essential_fields : list string := ["url"; "title"; "content_type"].

(** The body of the loop of lines 108-112. *)
Definition filter_metadata (data : loc) : M unit :=
  has ← contains data "metadata";
  if has : bool then
    md ← getitem data "metadata";
    kvs ← items md;
    setitem data "metadata"
      (PyDict (filter (fun kv => kv.1 ∈ essential_fields) kvs))
  else mret tt.

(** The bodies of the three loops that build the answer (lines 117-124,
    127-133 and 139-143); [csv_data.append(row)] adds [row] at the end. *)
Definition csv_append_with_urls (item : string * loc) (csv_data : list (list pyval))
  : M (list (list pyval)) :=
  let '(url, data) := item in
  md ← get data "metadata" (PyDict []);
  let metadata_str := json_dumps md in
  content ← getitem data "content";
  urls ← get data "discovered_urls" (PyList []);
  joined ← join ", " urls;
  mret (csv_data ++ [[PyStr url; content; PyStr joined; PyStr metadata_str]])%list.

Definition csv_append (item : string * loc) (csv_data : list (list pyval))
  : M (list (list pyval)) :=
  let '(url, data) := item in
  md ← get data "metadata" (PyDict []);
  let metadata_str := json_dumps md in
  content ← getitem data "content";
  mret (csv_data ++ [[PyStr url; content; PyStr metadata_str]])%list.

Definition clean_entry (item : string * loc) (clean_results : list (string * pyval))
  : M (list (string * pyval)) :=
  let '(url, data) := item in
  md ← get data "metadata" (PyDict []);
  content ← getitem data "content";
  mret (dict_setitem url (PyDict [("metadata", md); ("content", content)])
          clean_results).

Definition csv_header (include_urls : bool) : list pyval :=
  if include_urls
  then [PyStr "URL"; PyStr "Content"; PyStr "Discovered URLs"; PyStr "Metadata"]
  else [PyStr "URL"; PyStr "Content"; PyStr "Metadata"].

Definition format_output (results : gmap string loc) (output_format : string)
    (include_urls essential_metadata_only : bool) : M output :=
  let sorted_results := sorted_items results in
  (if essential_metadata_only
   then for_in sorted_results (fun item _ => filter_metadata item.2) tt
   else mret tt);;
  if decide (output_format = "csv") then
    if include_urls then
      csv_data ← for_in sorted_results csv_append_with_urls [csv_header true];
      mret (CsvTable csv_data)
    else
      csv_data ← for_in sorted_results csv_append [csv_header false];
      mret (CsvTable csv_data)
  else if decide (output_format = "json") then
    if negb include_urls then
      clean_results ← for_in sorted_results clean_entry [];
      mret (JsonClean clean_results)
    else mret (JsonRefs sorted_results)
  else raise (ValueError ("Invalid output format: " +:+ output_format)).

(** What the loop of lines 108-112 does to one entry: a [metadata] that is
    a dict is replaced by its restriction to the essential fields. *)
Definition restrict (o : gmap string pyval) : gmap string pyval :=
  match o !! "metadata" with
  | Some (PyDict kvs) =>
      <["metadata" := PyDict (filter (fun kv => kv.1 ∈ essential_fields) kvs)]> o
  | _ => o
  end.

(** The entries the docstring describes: [content] is there, [metadata]
    is a dict when it is there, [discovered_urls] a list of strings. *)
Definition metadata_ok (o : gmap string pyval) : bool :=
  match o !! "metadata" with
  | None | Some (PyDict _) => true
  | Some _ => false
  end.

Definition is_str (v : pyval) : bool :=
  match v with PyStr _ => true | _ => false end.

Definition well_formed_entry (o : gmap string pyval) : bool :=
  bool_decide (is_Some (o !! "content")) && metadata_ok o &&
  match o !! "discovered_urls" with
  | None => true
  | Some (PyList l) => forallb is_str l
  | Some _ => false
  end.

(** ** Sample processes, used to run the definitions *)

Definition quiet : env :=
  mkEnv (fun _ => 0%Q) (fun _ => 0%Q) (fun _ => 0%Q) (fun _ => false).

Definition cancelling : env :=
  mkEnv (fun _ => 0%Q) (fun _ => 0%Q) (fun _ => 0%Q) (fun _ => true).

Definition empty_store : url_store := mkStore true [] [].

(** A limiter with a fixed delay of five seconds whose clock reads one
    second, and one whose clock reads a thousand. *)
Definition near_epoch : world url_store := mkWorld (init 5 5) empty_store 1 0 [].
Definition later : world url_store := mkWorld (init 5 5) empty_store 1000 0 [].

(** The same process after a request to another domain. *)
Definition later_after_b : world url_store :=
  mkWorld (mkLimiter 5 5 {[ "b.com" := 999%Q ]}) empty_store 1000 0 [ObsTime 999].

Definition uninitialized : world url_store :=
  mkWorld (init 5 5) (mkStore false [] []) 1000 0 [].

Definition sample_heap : heap := fun l =>
  match l with
  | 0 => {[ "content" := PyStr "hello";
            "metadata" := PyDict [("url", PyStr "http://b"); ("etag", PyInt 3);
                                  ("title", PyStr "B")];
            "discovered_urls" := PyList [PyStr "http://c"; PyStr "http://d"] ]}
  | 1 => {[ "content" := PyStr "a" ]}
  | 2 => {[ "metadata" := PyNone ]}
  | _ => ∅
  end.

Definition sample_results : gmap string loc :=
  {[ "http://b" := 0; "http://a" := 1 ]}.

(** Results outside the documented shape: an entry without [content]
    whose [metadata] is [None]. *)
Definition malformed_results : gmap string loc := {[ "http://c" := 2 ]}.

(** ** More on the limiter *)

(** The timestamps of the ledger lie in the past of a clock that is past
    the epoch. *)
Definition timestamps_in_past {T : Type} (w : world T) : Prop :=
  (0 <= clock w)%Q /\
  forall d t, ledger w !! d = Some t -> (t <= clock w)%Q.

(** A process whose ledger holds an old entry. *)
Definition much_later : world url_store :=
  mkWorld (mkLimiter 5 5 {[ "b.com" := 999%Q ]}) empty_store 2000 0 [].

(** ** File names *)

(** [c.lower()] for a character below 256: the letters A-Z and the
    capital letters of Latin-1 (all of 192-222 but the sign at 215). *)
Definition lower_char (c : ascii) : ascii :=
  let n := N_of_ascii c in
  if ((65 <=? n) && (n <=? 90) || (192 <=? n) && (n <=? 222) && negb (n =? 215))%N
  then ascii_of_N (n + 32)
  else c.

(** [s.lower()] *)
Fixpoint lower (s : string) : string :=
  match s with
  | "" => ""
  | String c s => String (lower_char c) (lower s)
  end.

(** [s.split(sep)] for a separator of one character: never empty. *)
Fixpoint split (sep : ascii) (s : string) : list string :=
  match s with
  | "" => [""]
  | String c s =>
      if decide (c = sep) then "" :: split sep s
      else match split sep s with
           | w :: ws => String c w :: ws
           | [] => [String c ""]
           end
  end.

Definition image_extensions : list string :=
  ["jpg"; "jpeg"; "png"; "gif"; "bmp"; "svg"; "mp3"; "mp4"; "wav"; "avi"; "mov"].

(** [def is_image_file_extension(path)]; [l[-1]] on a list that is never
    empty. *)
Definition is_image_file_extension (path : string) : bool :=
  bool_decide (lower (default "" (last (split "." path))) ∈ image_extensions).

(** [def set_filename(output_format, now)], for a [now] that is a str. *)
Definition set_filename (output_format now : string) : string :=
  "scrape_" +:+ now +:+ "." +:+ output_format.

(** A string without a dot. *)
Definition dot_free (s : string) : Prop := "."%char ∉ String.list_ascii_of_string s.

(** ** More on the formatter *)


(** ** Fetching: [get_pdf_data] and [is_image_content_type]

    The two functions talk to the network and to the file system through
    [requests], [urlparse] and [open].  These are not code of the module:
    a record of functions stands for what they answer, and an action is
    recorded when it is made. *)

(** The exceptions of this part: [requests.RequestException] and its
    subclasses (named), [OSError], and anything else. *)
Inductive io_exn : Type :=
| RequestException (subclass : string)
| OSError (msg : string)
| OtherException (name : string).

Definition is_RequestException (e : io_exn) : bool :=
  match e with RequestException _ => true | _ => false end.

(** A response: its status, its body, and [headers.get('Content-Type')]. *)
Record response : Type := mkResponse {
  status_code : Z;
  response_content : string;
  content_type_header : option string
}.

Record net : Type := mkNet {
  urlparse_scheme : string -> io_exn + string;
  requests_get : string -> io_exn + response;
  requests_head : string -> io_exn + response;
  open_rb : string -> io_exn + unit
}.

Inductive io_obs : Type :=
| IoGet (url : string)
| IoHead (url : string)
| IoOpen (path : string)
| IoLogError (msg : string).

(** What [get_pdf_data] returns: a buffer over the body of a response, or
    the file object of a path opened for reading. *)
Inductive pdf_data : Type :=
| BytesIO (data : string)
| FileObject (path : string).

Definition IO (A : Type) : Type := list io_obs -> (io_exn + A) * list io_obs.

#[export] Instance IO_ret : MRet IO := fun A a tr => (inr a, tr).
#[export] Instance IO_bind : MBind IO := fun A B f m tr =>
  match m tr with
  | (inl e, tr') => (inl e, tr')
  | (inr a, tr') => f a tr'
  end.

Definition io_raise {A : Type} (e : io_exn) : IO A := fun tr => (inl e, tr).

(** [try: body except <class>: handler] *)
Definition try_except {A : Type} (body : IO A) (caught : io_exn -> bool)
    (handler : IO A) : IO A :=
  fun tr =>
    match body tr with
    | (inl e, tr') => if caught e then handler tr' else (inl e, tr')
    | (inr a, tr') => (inr a, tr')
    end.

(** A call that acts on nothing, and answers or raises. *)
Definition answer {A : Type} (r : io_exn + A) : IO A := fun tr => (r, tr).

(** A call that acts on the surroundings, and answers or raises. *)
Definition perform {A : Type} (o : io_obs) (answer : io_exn + A) : IO A :=
  fun tr => (answer, (tr ++ [o])%list).

(** [logging.error(msg)] *)
Definition logging_error (msg : string) : IO unit := perform (IoLogError msg) (inr tt).

(** [response.raise_for_status()]: an [HTTPError] for the statuses 400-599. *)
Definition raise_for_status (r : response) : IO unit :=
  if ((400 <=? status_code r) && (status_code r <? 600))%Z
  then io_raise (RequestException "HTTPError")
  else mret tt.

Section Fetching.
Variable N : net.

(** [def get_pdf_data(file_path_or_url)] *)
Definition get_pdf_data (file_path_or_url : string) : IO pdf_data :=
  scheme ← answer (urlparse_scheme N file_path_or_url);
  if bool_decide (scheme ∈ ["http"; "https"]) then
    response ← perform (IoGet file_path_or_url) (requests_get N file_path_or_url);
    raise_for_status response;;
    mret (BytesIO (response_content response))
  else
    perform (IoOpen file_path_or_url) (open_rb N file_path_or_url);;
    mret (FileObject file_path_or_url).

(** [def is_image_content_type(url)] *)
Definition is_image_content_type (url : string) : IO bool :=
  try_except
    (response ← perform (IoHead url) (requests_head N url);
     let content_type := default "" (content_type_header response) in
     mret (String.prefix "image/" content_type))
    is_RequestException
    (logging_error ("Error checking content type for " +:+ url);;
     mret false).
End Fetching.

(** A sample of surroundings: the scheme is the text before the first
    colon; [http://ok/a.png] is an image, [http://ok/gone.pdf] is not
    found, the host [down] cannot be reached, and only [/tmp/a.pdf] can be
    opened. *)
Definition sample_scheme (s : string) : io_exn + string :=
  match split ":" s with
  | w :: _ :: _ => inr (lower w)
  | _ => inr ""
  end.

Definition sample_net : net := {|
  urlparse_scheme := sample_scheme;
  requests_get := fun url =>
    if decide (url = "http://ok/a.pdf") then inr (mkResponse 200 "%PDF" (Some "application/pdf"))
    else if decide (url = "http://ok/gone.pdf") then inr (mkResponse 404 "" (Some "text/html"))
    else inl (RequestException "ConnectionError");
  requests_head := fun url =>
    if decide (url = "http://ok/a.png") then inr (mkResponse 200 "" (Some "image/png"))
    else if decide (url = "http://ok/a.pdf") then inr (mkResponse 200 "" (Some "application/pdf"))
    else inl (RequestException "ConnectionError");
  open_rb := fun path =>
    if decide (path = "/tmp/a.pdf") then inr tt
    else inl (OSError "No such file or directory")
|}.

(** The objects that the loop of lines 108-112 gets to rewrite: those of
    the items before the first whose metadata is not a dict. *)
Fixpoint filtered_prefix (ok : loc -> bool) (ls : list (string * loc)) : list loc :=
  match ls with
  | [] => []
  | item :: ls => if ok item.2 then item.2 :: filtered_prefix ok ls else []
  end.

(** Lines 114-147 of [format_output]: what follows the filtering. *)
Definition build_answer (results : gmap string loc) (output_format : string)
    (include_urls : bool) : M output :=
  let sorted_results := sorted_items results in
  if decide (output_format = "csv") then
    if include_urls then
      csv_data ← for_in sorted_results csv_append_with_urls [csv_header true];
      mret (CsvTable csv_data)
    else
      csv_data ← for_in sorted_results csv_append [csv_header false];
      mret (CsvTable csv_data)
  else if decide (output_format = "json") then
    if negb include_urls then
      clean_results ← for_in sorted_results clean_entry [];
      mret (JsonClean clean_results)
    else mret (JsonRefs sorted_results)
  else raise (ValueError ("Invalid output format: " +:+ output_format)).

(** * Properties *)

(** ** Tools *)

Ltac simp_run :=
  cbn -[Qlt_le_dec uniform Qminus Qplus sleep_time];
  unfold observe, set_clock, set_ledger, set_tracker;
  cbn -[Qlt_le_dec uniform Qminus Qplus sleep_time].

(** Closed comparisons of rationals and closed runs, by evaluation. *)
Ltac by_evaluation := vm_compute; first [reflexivity | discriminate | exact I].

Lemma uniform_bounds (a b u : Q) :
  (a <= b)%Q -> (0 <= u)%Q -> (u < 1)%Q ->
  (a <= uniform a b u)%Q /\ (uniform a b u <= b)%Q.
Proof. unfold uniform. intros. split; nra. Qed.

Lemma sleep_time_pos (s : Q) : (0 < s)%Q -> sleep_time s = s.
Proof.
  unfold sleep_time. intros Hs.
  destruct (Qlt_le_dec 0 s); [reflexivity | lra].
Qed.

Lemma touch_lookup (d : string) (m : gmap string Q) :
  touch d m !! d = Some (entry m d).
Proof.
  unfold touch, entry. destruct (m !! d) as [t|] eqn:Hd; simpl.
  - exact Hd.
  - apply lookup_insert_eq.
Qed.

Lemma touch_lookup_ne (d d' : string) (m : gmap string Q) :
  d' ≠ d -> touch d m !! d' = m !! d'.
Proof.
  intros Hne. unfold touch. destruct (m !! d); [reflexivity |].
  apply lookup_insert_ne. congruence.
Qed.

Lemma sleeps_app (tr tr' : list obs) :
  sleeps (tr ++ tr') = (sleeps tr ++ sleeps tr')%list.
Proof. apply omap_app. Qed.


Lemma ledger_mkWorld {T : Type} lo hi m (s : T) c n tr :
  ledger (mkWorld (mkLimiter lo hi m) s c n tr) = m.
Proof. reflexivity. Qed.

Lemma quiet_well_behaved : well_behaved quiet.
Proof. intros n. vm_compute. repeat split; discriminate. Defined.

Lemma quiet_never_cancelled : never_cancelled quiet.
Proof. intros n. reflexivity. Defined.

(** ** The rate limiter *)

Section Limiter.
Context {T : Type} `{UrlTracker T}.
Variable E : env.

(** A call of [wait] takes one of three courses: it sleeps and is
    cancelled, it sleeps and goes on, or it does not sleep. *)
Lemma run_wait (d : string) (w : world T) :
  let t0 := reading E w in
  let last := entry (ledger w) d in
  let lo := min_delay (limiter w) in
  let hi := max_delay (limiter w) in
  let r := uniform lo hi (draw E (S (tick w))) in
  let s := (r - (t0 - last))%Q in
  let m := touch d (ledger w) in
  run E (wait d) w =
  if Qlt_le_dec (t0 - last) r then
    if cancelled E (S (S (tick w))) then
      (inl CancelledError,
       mkWorld (mkLimiter lo hi m) (tracker w) t0 (3 + tick w)
         (trace w ++ [ObsTime t0; ObsUniform lo hi r; ObsCancelled s]))
    else
      let t1 := (t0 + sleep_time s + overshoot E (S (S (tick w))))%Q in
      let t2 := (t1 + elapse E (3 + tick w))%Q in
      (inr tt,
       mkWorld (mkLimiter lo hi (<[d := t2]> m)) (tracker w) t2 (4 + tick w)
         (trace w ++ [ObsTime t0; ObsUniform lo hi r; ObsSleep s; ObsTime t2]))
  else
    let t2 := (t0 + elapse E (S (S (tick w))))%Q in
    (inr tt,
     mkWorld (mkLimiter lo hi (<[d := t2]> m)) (tracker w) t2 (3 + tick w)
       (trace w ++ [ObsTime t0; ObsUniform lo hi r; ObsTime t2])).
Proof.
  destruct w as [[lo hi m] tr c n tc].
  unfold wait, ledger, entry, touch, reading; simp_run.
  destruct (m !! d) as [t|] eqn:Hd; simp_run;
    destruct (Qlt_le_dec _ _); simp_run;
    try destruct (cancelled E (S (S n))); simp_run;
    rewrite <- ?app_assoc; reflexivity.
Qed.

(** C1, amended: a domain without a ledger entry reads as timestamp [0.0];
    when [min_delay <= max_delay] and the clock reads at least [max_delay]
    at the start of the call, [wait] returns without sleeping. *)
Theorem wait_first_call_no_sleep (d : string) (w : world T) :
  well_behaved E ->
  ledger w !! d = None ->
  (min_delay (limiter w) <= max_delay (limiter w))%Q ->
  (max_delay (limiter w) <= reading E w)%Q ->
  (run E (wait d) w).1 = inr tt /\
  sleeps (trace (run E (wait d) w).2) = sleeps (trace w).
Proof.
  intros HE Hd Hle Hnow. rewrite run_wait.
  destruct (HE (S (tick w))) as (_ & _ & Hu0 & Hu1).
  destruct (uniform_bounds _ _ _ Hle Hu0 Hu1) as [_ Hr].
  unfold entry. rewrite Hd. simpl default.
  destruct (Qlt_le_dec _ _) as [Hlt | Hge].
  - exfalso. lra.
  - simpl. split; [reflexivity |].
    rewrite sleeps_app. simpl. apply app_nil_r.
Qed.

(** C2, amended: when [wait(d)] is cancelled in its sleep, no timestamp
    has been written.  If [d] had an entry the ledger is as it was before
    the call; if it had none, the read of the ledger has created the entry
    [d -> 0.0], and that is the only change. *)
Theorem wait_cancelled_ledger (d : string) (w w' : world T) (x : exn) :
  run E (wait d) w = (inl x, w') ->
  x = CancelledError /\
  ledger w' = touch d (ledger w) /\
  (is_Some (ledger w !! d) -> ledger w' = ledger w) /\
  (ledger w !! d = None -> ledger w' = <[d := 0%Q]> (ledger w)) /\
  (forall d', d' ≠ d -> ledger w' !! d' = ledger w !! d').
Proof.
  rewrite run_wait.
  destruct (Qlt_le_dec _ _); [destruct (cancelled E _) |]; simpl;
    intros Hrun; [| discriminate Hrun ..].
  injection Hrun as <- <-. rewrite ledger_mkWorld.
  split; [reflexivity |]. split; [reflexivity |].
  split; [| split].
  - intros [t Ht]. unfold touch. now rewrite Ht.
  - intros Hd. unfold touch. now rewrite Hd.
  - intros d' Hne. now apply touch_lookup_ne.
Qed.



(** C4: the course of [wait(A)] depends on the ledger only through the
    entry of [A].  From two processes that agree on that entry (and on
    the bounds, the clock and the answers of the environment) and differ
    in any way on the other domains, the two calls end alike, make the
    same observations (so they sleep for the same duration), and leave
    the same entry for [A]. *)
Theorem wait_independent_of_other_domains (dA : string) (w w' : world T) :
  ledger w !! dA = ledger w' !! dA ->
  min_delay (limiter w) = min_delay (limiter w') ->
  max_delay (limiter w) = max_delay (limiter w') ->
  clock w = clock w' -> tick w = tick w' ->
  let v := run E (wait dA) w in
  let v' := run E (wait dA) w' in
  v.1 = v'.1 /\
  (exists tr, trace v.2 = (trace w ++ tr)%list /\
              trace v'.2 = (trace w' ++ tr)%list) /\
  ledger v.2 !! dA = ledger v'.2 !! dA /\
  clock v.2 = clock v'.2.
Proof.
  intros Hl Hlo Hhi Hc Hn v v'. subst v v'. rewrite !run_wait.
  assert (He : entry (ledger w) dA = entry (ledger w') dA)
    by (unfold entry; now rewrite Hl).
  assert (Ht : reading E w = reading E w')
    by (unfold reading; now rewrite Hc, Hn).
  rewrite <- He, <- Ht, <- Hlo, <- Hhi, <- Hn.
  destruct (Qlt_le_dec _ _); [destruct (cancelled E _) |];
    cbn -[Qplus Qminus sleep_time reading entry ledger];
    (split; [reflexivity |]); (split; [eexists; split; reflexivity |]);
    (split; [| reflexivity]);
    rewrite !ledger_mkWorld, ?lookup_insert_eq, ?touch_lookup; congruence.
Qed.

(** C5: the timestamp that [wait(d)] stores is the clock value read at
    the end of the call, after the sleep if there was one: the process
    observes the entry reading [t0], the draw, possibly a sleep of [s],
    and last the reading [t2] that is stored.  When the call slept for
    [s], [t2] is at least [t0 + s]. *)
Theorem wait_records_time_after_sleep (d : string) (w : world T) :
  well_behaved E -> never_cancelled E ->
  let w' := (run E (wait d) w).2 in
  let t0 := reading E w in
  exists lo hi r t2 : Q,
    ledger w' !! d = Some t2 /\ clock w' = t2 /\
    ((trace w' = (trace w ++ [ObsTime t0; ObsUniform lo hi r; ObsTime t2])%list
      /\ (t0 <= t2)%Q) \/
     (exists s : Q,
        trace w' = (trace w ++ [ObsTime t0; ObsUniform lo hi r; ObsSleep s;
                                 ObsTime t2])%list
        /\ (0 < s)%Q /\ (t0 + s <= t2)%Q)).
Proof.
  intros HE HC w' t0. subst w' t0. rewrite run_wait.
  destruct (HE (S (S (tick w)))) as (He2 & Ho2 & _).
  destruct (HE (S (S (S (tick w))))) as (He3 & _).
  destruct (Qlt_le_dec _ _) as [Hlt | Hge].
  - rewrite HC. unfold ledger at 1.
    cbn -[Qplus Qminus Qle Qlt sleep_time reading entry ledger].
    eexists _, _, _, _.
    split; [apply lookup_insert_eq |]. split; [reflexivity |].
    right. eexists. split; [reflexivity |].
    rewrite sleep_time_pos by lra. split; lra.
  - unfold ledger at 1. cbn -[Qplus Qminus Qle Qlt reading entry ledger].
    eexists _, _, _, _.
    split; [apply lookup_insert_eq |]. split; [reflexivity |].
    left. split; [reflexivity | lra].
Qed.

(** C6: a call of [wait(d)], completed or not, leaves the ledger entry of
    every other domain as it was (present with the same timestamp, or
    absent), and leaves [min_delay] and [max_delay] as they were. *)
Theorem wait_frame (d : string) (w : world T) :
  let w' := (run E (wait d) w).2 in
  (forall d', d' ≠ d -> ledger w' !! d' = ledger w !! d') /\
  min_delay (limiter w') = min_delay (limiter w) /\
  max_delay (limiter w') = max_delay (limiter w) /\
  tracker w' = tracker w.
Proof.
  intros w'. subst w'. rewrite run_wait.
  destruct (Qlt_le_dec _ _); [destruct (cancelled E _) |];
    unfold ledger; cbn -[Qplus Qminus];
    (split; [| done]); intros d' Hne;
    rewrite ?lookup_insert_ne by congruence; now apply touch_lookup_ne.
Qed.

End Limiter.

(** C1, as stated, fails: with a fixed delay of five seconds and a clock
    that reads one second, the first call for a domain sleeps for four
    seconds, because the missing entry counts as timestamp [0.0]. *)
Lemma wait_first_call_sleeps_near_epoch :
  ledger near_epoch !! "a.com" = None /\
  (min_delay (limiter near_epoch) <= max_delay (limiter near_epoch))%Q /\
  sleeps (trace (run quiet (wait "a.com") near_epoch).2) = [4%Q].
Proof. repeat split; by_evaluation. Qed.

Lemma wait_first_call_no_sleep_witness :
  (run quiet (wait "a.com") later).1 = inr tt /\
  sleeps (trace (run quiet (wait "a.com") later).2) = sleeps (trace later).
Proof.
  apply (wait_first_call_no_sleep quiet "a.com" later).
  - exact quiet_well_behaved.
  - by_evaluation.
  - by_evaluation.
  - by_evaluation.
Defined.

(** C2, as stated, fails: cancelled in the sleep of its first call for
    [a.com], the process is left with an entry for [a.com] that was not
    there before the call. *)
Lemma wait_cancelled_leaves_new_entry :
  (run cancelling (wait "a.com") near_epoch).1 = inl CancelledError /\
  ledger near_epoch !! "a.com" = None /\
  ledger (run cancelling (wait "a.com") near_epoch).2 !! "a.com" = Some 0%Q.
Proof. repeat split; by_evaluation. Qed.

Lemma wait_cancelled_ledger_witness :
  CancelledError = CancelledError /\
  ledger (run cancelling (wait "a.com") near_epoch).2
    = touch "a.com" (ledger near_epoch) /\
  (is_Some (ledger near_epoch !! "a.com") ->
   ledger (run cancelling (wait "a.com") near_epoch).2 = ledger near_epoch) /\
  (ledger near_epoch !! "a.com" = None ->
   ledger (run cancelling (wait "a.com") near_epoch).2
     = <["a.com" := 0%Q]> (ledger near_epoch)) /\
  (forall d', d' ≠ "a.com" ->
   ledger (run cancelling (wait "a.com") near_epoch).2 !! d'
     = ledger near_epoch !! d').
Proof.
  apply (wait_cancelled_ledger cancelling "a.com" near_epoch).
  by_evaluation.
Defined.


Lemma wait_independent_of_other_domains_witness :
  let v := run quiet (wait "a.com") later_after_b in
  let v' := run quiet (wait "a.com") later in
  v.1 = v'.1 /\
  (exists tr, trace v.2 = (trace later_after_b ++ tr)%list /\
              trace v'.2 = (trace later ++ tr)%list) /\
  ledger v.2 !! "a.com" = ledger v'.2 !! "a.com" /\
  clock v.2 = clock v'.2.
Proof.
  apply (wait_independent_of_other_domains quiet "a.com" later_after_b later);
    by_evaluation.
Defined.

Lemma wait_records_time_after_sleep_witness :
  let w' := (run quiet (wait "a.com") near_epoch).2 in
  let t0 := reading quiet near_epoch in
  exists lo hi r t2 : Q,
    ledger w' !! "a.com" = Some t2 /\ clock w' = t2 /\
    ((trace w' = (trace near_epoch ++ [ObsTime t0; ObsUniform lo hi r; ObsTime t2])%list
      /\ (t0 <= t2)%Q) \/
     (exists s : Q,
        trace w' = (trace near_epoch ++ [ObsTime t0; ObsUniform lo hi r; ObsSleep s;
                                          ObsTime t2])%list
        /\ (0 < s)%Q /\ (t0 + s <= t2)%Q)).
Proof.
  apply (wait_records_time_after_sleep quiet "a.com" near_epoch).
  - exact quiet_well_behaved.
  - exact quiet_never_cancelled.
Defined.

(** The scenarios of the specification, run: with a fixed delay of a fifth
    of a second, a second call for the same domain sleeps for that delay
    less the time gone by, and a call for another domain does not sleep. *)
Example wait_same_domain_twice :
  exists s : Q,
    sleeps (trace (run quiet (wait "a.com";; wait "a.com")
                     (mkWorld (init (1 # 5) (1 # 5)) empty_store 1000 0 [])).2)
    = [s] /\ (s == 1 # 5)%Q.
Proof. eexists. split; by_evaluation. Qed.

Example wait_other_domain :
  sleeps (trace (run quiet (wait "a.com";; wait "b.com")
                   (mkWorld (init (1 # 5) (1 # 5)) empty_store 1000 0 [])).2)
  = [].
Proof. by_evaluation. Qed.

(** ** The progress report *)

Section Stats.
Context {T : Type} `{UrlTracker T}.
Variable E : env.

(** The three reads, in order; the first that raises ends the call. *)
Lemma run_get_scraping_stats (w : world T) :
  run E get_scraping_stats w =
  let w1 := observe (ObsTrackerRead "get_pool_size") w in
  match get_pool_size (tracker w) with
  | (inl e, s1) => (inl e, set_tracker s1 w1)
  | (inr v1, s1) =>
      let w2 := observe (ObsTrackerRead "get_visited_count") (set_tracker s1 w1) in
      match get_visited_count s1 with
      | (inl e, s2) => (inl e, set_tracker s2 w2)
      | (inr v2, s2) =>
          let w3 := observe (ObsTrackerRead "is_pool_empty") (set_tracker s2 w2) in
          match is_pool_empty s2 with
          | (inl e, s3) => (inl e, set_tracker s3 w3)
          | (inr v3, s3) =>
              (inr (PyDict [("urls_in_pool", v1); ("urls_visited", v2);
                            ("is_pool_empty", v3)]),
               set_tracker s3 w3)
          end
      end
  end.
Proof.
  unfold get_scraping_stats. cbn. unfold tracker_read. cbn.
  destruct (get_pool_size (tracker w)) as [[e1 | v1] s1]; cbn; [reflexivity |].
  unfold tracker_read. cbn.
  destruct (get_visited_count s1) as [[e2 | v2] s2]; cbn; [reflexivity |].
  unfold tracker_read. cbn.
  destruct (is_pool_empty s2) as [[e3 | v3] s3]; reflexivity.
Qed.

(** C7: when the three reads of the tracker answer [v1], [v2] and [v3],
    [get_scraping_stats] returns the dict whose [urls_in_pool],
    [urls_visited] and [is_pool_empty] are [v1], [v2] and [v3]; for the
    answers 0, 0 and True of an empty store that is
    [{urls_in_pool: 0, urls_visited: 0, is_pool_empty: True}]. *)
Theorem get_scraping_stats_fields (w : world T) (v1 v2 v3 : pyval) (s1 s2 s3 : T) :
  get_pool_size (tracker w) = (inr v1, s1) ->
  get_visited_count s1 = (inr v2, s2) ->
  is_pool_empty s2 = (inr v3, s3) ->
  (run E get_scraping_stats w).1 =
    inr (PyDict [("urls_in_pool", v1); ("urls_visited", v2); ("is_pool_empty", v3)])
  /\ (v1 = PyInt 0 -> v2 = PyInt 0 -> v3 = PyBool true ->
      (run E get_scraping_stats w).1 =
        inr (PyDict [("urls_in_pool", PyInt 0); ("urls_visited", PyInt 0);
                     ("is_pool_empty", PyBool true)])).
Proof.
  intros H1 H2 H3. rewrite run_get_scraping_stats, H1, H2, H3.
  split; [reflexivity |]. now intros -> -> ->.
Qed.

(** C8: [get_scraping_stats] does nothing but read the tracker: the
    limiter and the clock are as before and nothing sleeps, whether the
    call returns or raises; and a read that raises ends the call with the
    very exception it raised, the later reads not being made. *)
Theorem get_scraping_stats_propagates (w : world T) :
  let out := run E get_scraping_stats w in
  (limiter out.2 = limiter w /\ clock out.2 = clock w /\
   sleeps (trace out.2) = sleeps (trace w)) /\
  (forall e s1,
     get_pool_size (tracker w) = (inl e, s1) ->
     out.1 = inl e /\ tracker out.2 = s1 /\
     trace out.2 = (trace w ++ [ObsTrackerRead "get_pool_size"])%list) /\
  (forall v1 s1 e s2,
     get_pool_size (tracker w) = (inr v1, s1) ->
     get_visited_count s1 = (inl e, s2) ->
     out.1 = inl e /\ tracker out.2 = s2 /\
     trace out.2 = (trace w ++ [ObsTrackerRead "get_pool_size";
                                ObsTrackerRead "get_visited_count"])%list) /\
  (forall v1 s1 v2 s2 e s3,
     get_pool_size (tracker w) = (inr v1, s1) ->
     get_visited_count s1 = (inr v2, s2) ->
     is_pool_empty s2 = (inl e, s3) ->
     out.1 = inl e /\ tracker out.2 = s3).
Proof.
  intros out. subst out. rewrite run_get_scraping_stats.
  split; [| split; [| split]].
  - destruct (get_pool_size (tracker w)) as [[e1 | v1] s1];
      [| destruct (get_visited_count s1) as [[e2 | v2] s2];
         [| destruct (is_pool_empty s2) as [[e3 | v3] s3]]];
      cbn; rewrite <- ?app_assoc, sleeps_app, app_nil_r; done.
  - intros e s1 ->. done.
  - intros v1 s1 e s2 -> ->. cbn. now rewrite <- app_assoc.
  - intros v1 s1 v2 s2 e s3 -> -> ->. done.
Qed.

End Stats.

Lemma get_scraping_stats_fields_witness :
  (run quiet get_scraping_stats later).1 =
    inr (PyDict [("urls_in_pool", PyInt 0); ("urls_visited", PyInt 0);
                 ("is_pool_empty", PyBool true)]).
Proof.
  apply (get_scraping_stats_fields quiet later (PyInt 0) (PyInt 0) (PyBool true)
           empty_store empty_store empty_store); reflexivity.
Defined.

(** A store that was never initialised: the first read raises and the
    report raises the same. *)
Lemma get_scraping_stats_propagates_witness :
  (run quiet get_scraping_stats uninitialized).1
  = inl (RuntimeError "url tracker is not initialized").
Proof.
  destruct (get_scraping_stats_propagates quiet uninitialized) as (_ & Hfirst & _).
  apply (Hfirst _ (mkStore false [] [])). reflexivity.
Defined.

(** ** The formatter *)

Lemma filter_idemp {A} (P : A -> Prop) `{forall x, Decision (P x)} (l : list A) :
  filter P (filter P l) = filter P l.
Proof.
  induction l as [|x l IH]; [reflexivity |].
  rewrite (filter_cons P x l). destruct (decide (P x)) as [HP | HP].
  - rewrite filter_cons_True by exact HP. now rewrite IH.
  - exact IH.
Qed.

Lemma restrict_idemp o : restrict (restrict o) = restrict o.
Proof.
  unfold restrict. destruct (o !! "metadata") as [[| | | | |kvs]|] eqn:Hm;
    rewrite ?Hm; try reflexivity.
  rewrite lookup_insert_eq, insert_insert_eq, filter_idemp. reflexivity.
Qed.

Lemma restrict_lookup_ne o k : k ≠ "metadata" -> restrict o !! k = o !! k.
Proof.
  intros Hk. unfold restrict.
  destruct (o !! "metadata") as [[| | | | |kvs]|]; try reflexivity.
  apply lookup_insert_ne. congruence.
Qed.

Lemma restrict_metadata_ok o : metadata_ok o = true -> metadata_ok (restrict o) = true.
Proof.
  unfold metadata_ok, restrict.
  destruct (o !! "metadata") as [[| | | | |kvs]|] eqn:Hm; rewrite ?Hm; try done.
  now rewrite lookup_insert_eq.
Qed.

Lemma restrict_well_formed o :
  well_formed_entry o = true -> well_formed_entry (restrict o) = true.
Proof.
  unfold well_formed_entry. rewrite !andb_true_iff. intros [[Hc Hm] Hu].
  rewrite !restrict_lookup_ne by done. auto using restrict_metadata_ok.
Qed.

Lemma filter_metadata_run (data : loc) (h : heap) :
  metadata_ok (h data) = true ->
  exists h', filter_metadata data h = (inr tt, h') /\
    h' data = restrict (h data) /\ forall l, l ≠ data -> h' l = h l.
Proof.
  unfold metadata_ok, filter_metadata, restrict, contains, getitem, setitem.
  intros Hok. unfold mbind, M_bind.
  destruct (h data !! "metadata") as [v|] eqn:Hm.
  - rewrite bool_decide_eq_true_2 by eauto. rewrite Hm.
    destruct v; try discriminate Hok. cbn.
    eexists. split; [reflexivity |]. split.
    + apply fn_lookup_insert.
    + intros l Hl. apply fn_lookup_insert_ne. congruence.
  - rewrite bool_decide_eq_false_2 by (intros [? ?]; discriminate). cbn.
    eexists. split; [reflexivity |]. split; [reflexivity | done].
Qed.

Lemma filter_loop (ls : list (string * loc)) (h : heap) :
  (forall p, p ∈ ls -> metadata_ok (h p.2) = true) ->
  exists h', for_in ls (fun item _ => filter_metadata item.2) tt h = (inr tt, h') /\
    forall l, h' l = if decide (l ∈ ls.*2) then restrict (h l) else h l.
Proof.
  revert h. induction ls as [|[url a] ls IH]; intros h Hok.
  - exists h. split; [reflexivity |]. intros l. rewrite decide_False; [done | set_solver].
  - destruct (filter_metadata_run a h) as (h1 & Hrun & Ha & Hne).
    { apply (Hok (url, a)). set_solver. }
    destruct (IH h1) as (h' & Hloop & Hh').
    { intros [u l] Hin. simpl. destruct (decide (l = a)) as [-> | Hl].
      - rewrite Ha. apply restrict_metadata_ok, (Hok (url, a)). set_solver.
      - rewrite Hne by done. apply (Hok (u, l)). set_solver. }
    exists h'. split.
    + cbn. unfold mbind, M_bind. rewrite Hrun. exact Hloop.
    + intros l. rewrite Hh'. rewrite fmap_cons. simpl.
      destruct (decide (l = a)) as [-> | Hl].
      * rewrite Ha, restrict_idemp.
        rewrite (decide_True (P := a ∈ a :: ls.*2)) by apply list_elem_of_here.
        now destruct (decide (a ∈ ls.*2)).
      * rewrite Hne by done.
        destruct (decide (l ∈ ls.*2)) as [Hin | Hin].
        -- rewrite decide_True by now apply list_elem_of_further. done.
        -- rewrite decide_False; [done |].
           intros [?|?]%elem_of_cons; contradiction.
Qed.

Lemma for_in_readonly {X S : Type} (body : X -> S -> M S) (ls : list X) :
  (forall x acc h, (body x acc h).2 = h) ->
  forall acc h, (for_in ls body acc h).2 = h.
Proof.
  intros Hbody. induction ls as [|x ls IH]; intros acc h; [reflexivity |].
  cbn. unfold mbind, M_bind. specialize (Hbody x acc h).
  destruct (body x acc h) as [[e | acc'] h1]; simpl in Hbody; subst h1.
  - reflexivity.
  - apply IH.
Qed.



Lemma join_readonly sep v h : (join sep v h).2 = h.
Proof.
  destruct v as [| | | |l|d]; try reflexivity.
  cbn. now destruct (mapM as_str l).
Qed.

Lemma csv_append_with_urls_readonly item acc h :
  (csv_append_with_urls item acc h).2 = h.
Proof.
  destruct item as [url data].
  unfold csv_append_with_urls, get, getitem, mbind, M_bind.
  destruct (h data !! "content"); [| reflexivity].
  pose proof (join_readonly ", "
    (from_option id (PyList []) (h data !! "discovered_urls")) h) as Hj.
  destruct (join _ _ h) as [[e | s] h1]; simpl in Hj; now subst h1.
Qed.

Lemma csv_append_readonly item acc h : (csv_append item acc h).2 = h.
Proof.
  destruct item as [url data].
  unfold csv_append, get, getitem, mbind, M_bind.
  now destruct (h data !! "content").
Qed.

Lemma clean_entry_readonly item acc h : (clean_entry item acc h).2 = h.
Proof.
  destruct item as [url data].
  unfold clean_entry, get, getitem, mbind, M_bind.
  now destruct (h data !! "content").
Qed.





Lemma elem_of_sorted_items (results : gmap string loc) (p : string * loc) :
  p ∈ sorted_items results <-> results !! p.1 = Some p.2.
Proof.
  unfold sorted_items. rewrite merge_sort_Permutation.
  destruct p as [url l]. apply elem_of_map_to_list.
Qed.


Lemma elem_of_sorted_locs (results : gmap string loc) (l : loc) :
  l ∈ (sorted_items results).*2 <-> exists url, results !! url = Some l.
Proof.
  rewrite list_elem_of_fmap. split.
  - intros ([url l'] & -> & Hin). exists url. now apply elem_of_sorted_items in Hin.
  - intros [url Hl]. exists (url, l). split; [reflexivity |].
    now apply elem_of_sorted_items.
Qed.

Lemma format_output_unfold results fmt incl ess h :
  format_output results fmt incl ess h =
  match (if ess : bool
         then for_in (sorted_items results) (fun item _ => filter_metadata item.2) tt
         else mret tt) h with
  | (inl e, h1) => (inl e, h1)
  | (inr _, h1) =>
      (if decide (fmt = "csv") then
         if incl then
           csv_data ← for_in (sorted_items results) csv_append_with_urls [csv_header true];
           mret (CsvTable csv_data)
         else
           csv_data ← for_in (sorted_items results) csv_append [csv_header false];
           mret (CsvTable csv_data)
       else if decide (fmt = "json") then
         if negb incl then
           clean_results ← for_in (sorted_items results) clean_entry [];
           mret (JsonClean clean_results)
         else mret (JsonRefs (sorted_items results))
       else raise (ValueError ("Invalid output format: " +:+ fmt))) h1
  end.
Proof. reflexivity. Qed.

Lemma essential_phase results (ess : bool) h :
  map_Forall (fun _ l => metadata_ok (h l) = true) results ->
  exists h1,
    (if ess
     then for_in (sorted_items results) (fun item _ => filter_metadata item.2) tt
     else mret tt) h = (inr tt, h1) /\
    forall l, h1 l = if ess && bool_decide (l ∈ (sorted_items results).*2)
                     then restrict (h l) else h l.
Proof.
  intros Hok. destruct ess.
  - destruct (filter_loop (sorted_items results) h) as (h1 & Hrun & Hh1).
    { intros [url l] Hin%elem_of_sorted_items. exact (Hok url l Hin). }
    exists h1. split; [exact Hrun |]. intros l. rewrite Hh1. simpl.
    now destruct (decide _); [rewrite bool_decide_eq_true_2 | rewrite bool_decide_eq_false_2].
  - exists h. split; [reflexivity | done].
Qed.

Lemma rest_readonly results fmt (incl : bool) h :
  ((if decide (fmt = "csv") then
         if incl then
           csv_data ← for_in (sorted_items results) csv_append_with_urls [csv_header true];
           mret (CsvTable csv_data)
         else
           csv_data ← for_in (sorted_items results) csv_append [csv_header false];
           mret (CsvTable csv_data)
       else if decide (fmt = "json") then
         if negb incl then
           clean_results ← for_in (sorted_items results) clean_entry [];
           mret (JsonClean clean_results)
         else mret (JsonRefs (sorted_items results))
       else raise (ValueError ("Invalid output format: " +:+ fmt))) h).2 = h.
Proof.
  destruct (decide (fmt = "csv")); [| destruct (decide (fmt = "json"))];
    [destruct incl | destruct incl | reflexivity]; try reflexivity;
    unfold mbind, M_bind.
  - pose proof (for_in_readonly csv_append_with_urls (sorted_items results)
      csv_append_with_urls_readonly [csv_header true] h) as Hr.
    destruct (for_in _ _ _ h) as [[?|?] h1]; simpl in Hr; now subst.
  - pose proof (for_in_readonly csv_append (sorted_items results)
      csv_append_readonly [csv_header false] h) as Hr.
    destruct (for_in _ _ _ h) as [[?|?] h1]; simpl in Hr; now subst.
  - pose proof (for_in_readonly clean_entry (sorted_items results)
      clean_entry_readonly [] h) as Hr. simpl.
    destruct (for_in _ _ _ h) as [[?|?] h1]; simpl in Hr; now subst.
Qed.

(** C10: called with [essential_metadata_only=True] on results whose
    [metadata], where there is one, is a dict, [format_output] writes into
    the entries its caller holds: every entry of [results] that has a
    [metadata] ends with it replaced by the dict of those of its items
    whose key is [url], [title] or [content_type], in their order; an
    entry without [metadata] and every other object is left as it was;
    and this is so for every format selector, also one for which the call
    raises the invalid-format error. *)
Theorem format_output_mutates_results results fmt incl (h : heap) :
  map_Forall (fun _ l => metadata_ok (h l) = true) results ->
  let out := format_output results fmt incl true h in
  (forall url l md,
     results !! url = Some l -> h l !! "metadata" = Some (PyDict md) ->
     out.2 l = <["metadata" :=
                  PyDict (filter (fun kv => kv.1 ∈ ["url"; "title"; "content_type"])
                            md)]> (h l)) /\
  (forall url l,
     results !! url = Some l -> h l !! "metadata" = None -> out.2 l = h l) /\
  (forall l, (forall url, results !! url ≠ Some l) -> out.2 l = h l) /\
  (fmt ≠ "csv" -> fmt ≠ "json" ->
   out.1 = inl (ValueError ("Invalid output format: " +:+ fmt))).
Proof.
  intros Hok out. subst out. rewrite format_output_unfold.
  destruct (essential_phase results true h Hok) as (h1 & -> & Hh1).
  assert (Hentry : forall url l, results !! url = Some l -> h1 l = restrict (h l)).
  { intros url l Hl. rewrite Hh1. simpl.
    rewrite bool_decide_eq_true_2; [done |]. apply elem_of_sorted_locs. eauto. }
  split; [| split; [| split]].
  - intros url l md Hl Hmd. rewrite rest_readonly, (Hentry url l Hl).
    unfold restrict. now rewrite Hmd.
  - intros url l Hl Hmd. rewrite rest_readonly, (Hentry url l Hl).
    unfold restrict. now rewrite Hmd.
  - intros l Hl. rewrite rest_readonly, Hh1. simpl.
    rewrite bool_decide_eq_false_2; [done |].
    intros [url Hurl]%elem_of_sorted_locs. exact (Hl url Hurl).
  - intros Hcsv Hjson. now rewrite !decide_False by done.
Qed.


Lemma sample_well_formed :
  map_Forall (fun _ l => well_formed_entry (sample_heap l) = true) sample_results.
Proof. apply (bool_decide_unpack _). by_evaluation. Defined.

Lemma sample_metadata_ok :
  map_Forall (fun _ l => metadata_ok (sample_heap l) = true) sample_results.
Proof. apply (bool_decide_unpack _). by_evaluation. Defined.


Lemma format_output_mutates_results_witness :
  (format_output sample_results "xml" false true sample_heap).2 0
  = <["metadata" := PyDict [("url", PyStr "http://b"); ("title", PyStr "B")]]>
      (sample_heap 0).
Proof.
  destruct (format_output_mutates_results sample_results "xml" false sample_heap
              sample_metadata_ok) as (Hdict & _).
  apply (Hdict "http://b" 0
           [("url", PyStr "http://b"); ("etag", PyInt 3); ("title", PyStr "B")]);
    by_evaluation.
Defined.


(** The sample results, formatted. *)
Example format_output_csv :
  (format_output sample_results "csv" true true sample_heap).1
  = inr (CsvTable
      [[PyStr "URL"; PyStr "Content"; PyStr "Discovered URLs"; PyStr "Metadata"];
       [PyStr "http://a"; PyStr "a"; PyStr ""; PyStr "{}"];
       [PyStr "http://b"; PyStr "hello"; PyStr "http://c, http://d";
        PyStr (json_dumps (PyDict [("url", PyStr "http://b"); ("title", PyStr "B")]))]]).
Proof. by_evaluation. Qed.

Example format_output_invalid :
  (format_output sample_results "xml" false true sample_heap).1
  = inl (ValueError "Invalid output format: xml")
  /\ (format_output sample_results "xml" false true sample_heap).2 0 !! "metadata"
     = Some (PyDict [("url", PyStr "http://b"); ("title", PyStr "B")]).
Proof. split; by_evaluation. Qed.

(** Outside the documented shape the lookups of the loops raise instead:
    [data['content']] on an entry without content, and [.items()] on a
    [metadata] that is not a dict, the latter before the selector is
    looked at. *)
Example format_output_missing_content :
  (format_output malformed_results "csv" false false sample_heap).1
  = inl (KeyError "content").
Proof. by_evaluation. Qed.

Example format_output_metadata_not_a_dict :
  (format_output malformed_results "xml" false true sample_heap).1
  = inl AttributeError.
Proof. by_evaluation. Qed.

(** * Further properties *)

(** ** The rate limiter *)

Section LimiterMore.
Context {T : Type} `{UrlTracker T}.
Variable E : env.

Lemma dom_touch (d : string) (m : gmap string Q) :
  dom (touch d m) = {[d]} ∪ dom m.
Proof.
  unfold touch. destruct (m !! d) as [t|] eqn:Hd.
  - symmetry. apply subseteq_union_1_L, singleton_subseteq_l, elem_of_dom. eauto.
  - apply dom_insert_L.
Qed.

(** X1: every call of [wait(d)], completed or cancelled, leaves the
    ledger with the keys it had and [d]: an entry is created at the first
    call for its domain and none is ever removed. *)
Theorem wait_ledger_keys (d : string) (w : world T) :
  dom (ledger (run E (wait d) w).2) = {[d]} ∪ dom (ledger w).
Proof.
  rewrite run_wait.
  destruct (Qlt_le_dec _ _); [destruct (cancelled E _) |];
    cbn -[Qplus Qminus sleep_time reading entry ledger];
    rewrite ledger_mkWorld, ?dom_insert_L, dom_touch;
    rewrite ?(assoc_L (∪)), ?(idemp_L (∪)); reflexivity.
Qed.

(** X2: in an environment where time does not run backwards, [wait]
    keeps the timestamps of the ledger in the past: if the clock is past
    the epoch and no entry lies in the future before the call, the same
    holds after it. *)
Theorem wait_keeps_timestamps_in_past (d : string) (w : world T) :
  well_behaved E ->
  timestamps_in_past w ->
  timestamps_in_past (run E (wait d) w).2.
Proof.
  intros HE [Hc Hpast]. rewrite run_wait.
  destruct (HE (tick w)) as (He0 & _).
  destruct (HE (S (S (tick w)))) as (He2 & Ho2 & _).
  destruct (HE (S (S (S (tick w))))) as (He3 & _).
  assert (Ht0 : (clock w <= reading E w)%Q) by (unfold reading; lra).
  assert (Htouch : forall d' t, touch d (ledger w) !! d' = Some t ->
                                (t <= clock w)%Q).
  { intros d' t. destruct (decide (d' = d)) as [-> | Hne].
    - rewrite touch_lookup. unfold entry.
      destruct (ledger w !! d) as [t'|] eqn:Hd; simpl; intros [= <-];
        [eauto | exact Hc].
    - rewrite touch_lookup_ne by done. apply Hpast. }
  unfold timestamps_in_past.
  destruct (Qlt_le_dec _ _) as [Hlt | Hge]; [destruct (cancelled E _) |];
    cbn -[Qplus Qminus Qle sleep_time reading entry ledger];
    rewrite ledger_mkWorld.
  - split; [lra |]. intros d' t Hl. specialize (Htouch d' t Hl). lra.
  - rewrite sleep_time_pos by lra. split; [lra |]. intros d' t.
    destruct (decide (d' = d)) as [-> | Hne].
    + rewrite lookup_insert_eq. intros [= <-]. lra.
    + rewrite lookup_insert_ne by done. intros Hl.
      specialize (Htouch d' t Hl). lra.
  - split; [lra |]. intros d' t.
    destruct (decide (d' = d)) as [-> | Hne].
    + rewrite lookup_insert_eq. intros [= <-]. lra.
    + rewrite lookup_insert_ne by done. intros Hl.
      specialize (Htouch d' t Hl). lra.
Qed.

(** X3: a domain whose recorded timestamp is at least [max_delay] old
    when the call starts is not delayed: the call returns without
    sleeping. *)
Theorem wait_old_entry_no_sleep (d : string) (w : world T) :
  well_behaved E ->
  (min_delay (limiter w) <= max_delay (limiter w))%Q ->
  (entry (ledger w) d + max_delay (limiter w) <= reading E w)%Q ->
  (run E (wait d) w).1 = inr tt /\
  sleeps (trace (run E (wait d) w).2) = sleeps (trace w).
Proof.
  intros HE Hle Hold. rewrite run_wait.
  destruct (HE (S (tick w))) as (_ & _ & Hu0 & Hu1).
  destruct (uniform_bounds _ _ _ Hle Hu0 Hu1) as [_ Hr].
  destruct (Qlt_le_dec _ _) as [Hlt | Hge]; [exfalso; lra |].
  cbn -[Qplus Qminus]. split; [reflexivity |].
  rewrite sleeps_app. apply app_nil_r.
Qed.

(** X4: a call of [wait(d)] sleeps at most once, and when the recorded
    timestamp of [d] is not in the future the sleep is positive and at
    most [max_delay]. *)
Theorem wait_sleep_bounded (d : string) (w : world T) :
  well_behaved E ->
  (min_delay (limiter w) <= max_delay (limiter w))%Q ->
  (entry (ledger w) d <= reading E w)%Q ->
  exists ss : list Q,
    sleeps (trace (run E (wait d) w).2) = (sleeps (trace w) ++ ss)%list /\
    length ss <= 1 /\
    Forall (fun s => (0 < s)%Q /\ (s <= max_delay (limiter w))%Q) ss.
Proof.
  intros HE Hle Hpast. rewrite run_wait.
  destruct (HE (S (tick w))) as (_ & _ & Hu0 & Hu1).
  destruct (uniform_bounds _ _ _ Hle Hu0 Hu1) as [_ Hr].
  destruct (Qlt_le_dec _ _) as [Hlt | Hge]; [destruct (cancelled E _) |];
    cbn -[Qplus Qminus Qle Qlt sleep_time reading entry ledger];
    rewrite sleeps_app; eexists; (split; [reflexivity |]); simpl;
    (split; [lia |]); repeat constructor; lra.
Qed.

(** X5: with a fixed delay ([min_delay] equal to [max_delay]) a call that
    comes less than the delay after the recorded timestamp sleeps for
    exactly the delay less the time gone by. *)
Theorem wait_fixed_delay_sleep (d : string) (w : world T) :
  (min_delay (limiter w) == max_delay (limiter w))%Q ->
  (reading E w - entry (ledger w) d < min_delay (limiter w))%Q ->
  exists s : Q,
    sleeps (trace (run E (wait d) w).2) = (sleeps (trace w) ++ [s])%list /\
    (s == min_delay (limiter w) - (reading E w - entry (ledger w) d))%Q.
Proof.
  intros Heq Hlt. rewrite run_wait.
  assert (Hr : (uniform (min_delay (limiter w)) (max_delay (limiter w))
                  (draw E (S (tick w))) == min_delay (limiter w))%Q).
  { unfold uniform. rewrite <- Heq. ring. }
  destruct (Qlt_le_dec _ _) as [Hlt' | Hge]; [| exfalso; lra].
  destruct (cancelled E _);
    cbn -[Qplus Qminus Qle Qlt sleep_time reading entry ledger];
    rewrite sleeps_app; eexists; (split; [reflexivity |]); lra.
Qed.

End LimiterMore.

(** ** File names *)

Lemma app_cons (c : ascii) (p q : string) :
  String c p +:+ q = String c (p +:+ q).
Proof. reflexivity. Qed.

Lemma app_length (p q : string) :
  String.length (p +:+ q) = String.length p + String.length q.
Proof.
  induction p as [|c p IH]; [reflexivity |].
  rewrite app_cons. simpl. now rewrite IH.
Qed.

Lemma app_assoc_string (p q r : string) : (p +:+ q) +:+ r = p +:+ q +:+ r.
Proof.
  induction p as [|c p IH]; [reflexivity |].
  rewrite !app_cons. now rewrite IH.
Qed.

Lemma app_inj_r (p p' q : string) : p +:+ q = p' +:+ q -> p = p'.
Proof.
  revert p'. induction p as [|c p IH]; intros [|c' p'] Heq.
  - reflexivity.
  - apply (f_equal String.length) in Heq.
    rewrite !app_length in Heq. simpl in Heq. lia.
  - apply (f_equal String.length) in Heq.
    rewrite !app_length in Heq. simpl in Heq. lia.
  - rewrite !app_cons in Heq. injection Heq as -> Heq. f_equal. now apply IH.
Qed.

Lemma split_nonempty (sep : ascii) (s : string) : split sep s ≠ [].
Proof.
  destruct s as [|c s]; simpl; [done |].
  destruct (decide (c = sep)); [done |]. now destruct (split sep s).
Qed.

(** [(p + sep + e).split(sep)] is [p.split(sep) + e.split(sep)]. *)
Lemma split_app (sep : ascii) (p e : string) :
  split sep (p +:+ String sep e) = (split sep p ++ split sep e)%list.
Proof.
  induction p as [|c p IH].
  - change ("" +:+ String sep e) with (String sep e). simpl.
    now rewrite decide_True.
  - rewrite app_cons. simpl. rewrite IH.
    destruct (decide (c = sep)); [reflexivity |].
    pose proof (split_nonempty sep p) as Hne.
    now destruct (split sep p).
Qed.

Lemma split_free (sep : ascii) (e : string) :
  sep ∉ String.list_ascii_of_string e -> split sep e = [e].
Proof.
  induction e as [|c e IH]; simpl; [done |].
  intros Hnot. rewrite not_elem_of_cons in Hnot. destruct Hnot as [Hc He].
  rewrite decide_False by congruence. now rewrite IH.
Qed.

Lemma last_split_app (p e : string) :
  dot_free e -> last (split "." (p +:+ "." +:+ e)) = Some e.
Proof.
  intros He. change ("." +:+ e) with (String "." e).
  rewrite split_app, (split_free _ e He). apply last_snoc.
Qed.

Lemma lower_char_idemp (c : ascii) : lower_char (lower_char c) = lower_char c.
Proof. destruct c as [[] [] [] [] [] [] [] []]; reflexivity. Qed.

Lemma lower_char_dot (c : ascii) : lower_char c = "."%char <-> c = "."%char.
Proof. destruct c as [[] [] [] [] [] [] [] []]; split; (reflexivity || discriminate). Qed.

Lemma lower_idemp (s : string) : lower (lower s) = lower s.
Proof.
  induction s as [|c s IH]; [reflexivity |].
  simpl. now rewrite lower_char_idemp, IH.
Qed.

Lemma split_lower (s : string) : split "." (lower s) = lower <$> split "." s.
Proof.
  induction s as [|c s IH]; [reflexivity |].
  simpl. rewrite IH. destruct (decide (c = "."%char)) as [-> | Hc].
  - reflexivity.
  - rewrite decide_False by (rewrite lower_char_dot; exact Hc).
    pose proof (split_nonempty "." s) as Hne. now destruct (split "." s).
Qed.

(** X6: only what follows the last dot of a path counts, and a name
    without a dot counts as an extension: for [e] without a dot,
    [p + "." + e] is classified as [e] itself is. *)
Theorem is_image_file_extension_last_segment (p e : string) :
  dot_free e ->
  is_image_file_extension (p +:+ "." +:+ e) = is_image_file_extension e.
Proof.
  intros He. unfold is_image_file_extension.
  rewrite (last_split_app p e He), (split_free _ e He). reflexivity.
Qed.

(** X7: the classification does not see the case of the letters: a path
    and its lower-case form are classified alike. *)
Theorem is_image_file_extension_case (path : string) :
  is_image_file_extension (lower path) = is_image_file_extension path.
Proof.
  unfold is_image_file_extension. rewrite split_lower, fmap_last.
  pose proof (split_nonempty "." path) as Hne.
  destruct (last (split "." path)) as [e|] eqn:Hlast; simpl.
  - now rewrite lower_idemp.
  - reflexivity.
Qed.

(** X8: a path that ends with a dot has the empty extension and is not an
    image. *)
Theorem is_image_file_extension_trailing_dot (p : string) :
  is_image_file_extension (p +:+ ".") = false.
Proof.
  unfold is_image_file_extension.
  change "." with ("." +:+ ""). rewrite (last_split_app p "").
  - reflexivity.
  - unfold dot_free. simpl. apply not_elem_of_nil.
Qed.

Lemma set_filename_last (output_format now : string) :
  dot_free output_format ->
  last (split "." (set_filename output_format now)) = Some output_format.
Proof.
  intros Hf. unfold set_filename. rewrite <- app_assoc_string.
  now apply last_split_app.
Qed.

(** X9: the name [set_filename] builds ends with its format: for a format
    without a dot, the text after the last dot of the name is the format,
    so [is_image_file_extension] classifies the name as it does the
    format. *)
Theorem set_filename_extension (output_format now : string) :
  dot_free output_format ->
  last (split "." (set_filename output_format now)) = Some output_format /\
  is_image_file_extension (set_filename output_format now)
    = is_image_file_extension output_format.
Proof.
  intros Hf. split; [now apply set_filename_last |].
  unfold is_image_file_extension.
  now rewrite (set_filename_last _ now Hf), (split_free _ _ Hf).
Qed.

(** X10: [set_filename] loses nothing: two names that are equal were built
    from the same format and the same [now], for formats without a dot. *)
Theorem set_filename_injective (f f' now now' : string) :
  dot_free f -> dot_free f' ->
  set_filename f now = set_filename f' now' ->
  f = f' /\ now = now'.
Proof.
  intros Hf Hf' Heq.
  assert (Hff : f = f').
  { assert (Hl : last (split "." (set_filename f now))
                 = last (split "." (set_filename f' now'))) by now rewrite Heq.
    rewrite (set_filename_last f now Hf), (set_filename_last f' now' Hf') in Hl.
    congruence. }
  split; [exact Hff |]. subst f'. unfold set_filename in Heq.
  apply (inj (String.app "scrape_")) in Heq.
  now apply app_inj_r in Heq.
Qed.

(** ** The formatter *)

(** X11: without [essential_metadata_only], [format_output] writes into no
    object: whatever the results, the selector and the outcome (a table, a
    mapping or an exception), the store is as it was. *)
Theorem format_output_reads_only results fmt incl (h : heap) :
  (format_output results fmt incl false h).2 = h.
Proof. rewrite format_output_unfold. simpl. apply rest_readonly. Qed.

Lemma restrict_metadata_ok_eq o : metadata_ok (restrict o) = metadata_ok o.
Proof.
  unfold metadata_ok, restrict.
  destruct (o !! "metadata") as [[| | | | |kvs]|] eqn:Hm; rewrite ?Hm; try done.
  now rewrite lookup_insert_eq.
Qed.

Lemma filter_metadata_fails (data : loc) (h : heap) :
  metadata_ok (h data) = false -> filter_metadata data h = (inl AttributeError, h).
Proof.
  unfold metadata_ok, filter_metadata, contains, getitem, mbind, M_bind.
  destruct (h data !! "metadata") as [v|] eqn:Hm; [| discriminate].
  rewrite bool_decide_eq_true_2 by eauto. rewrite Hm.
  now destruct v.
Qed.

Lemma forallb_pointwise {X : Type} (P Q : X -> bool) (ls : list X) :
  (forall x, P x = Q x) -> forallb P ls = forallb Q ls.
Proof.
  intros HPQ. induction ls as [|x ls IH]; [reflexivity |].
  simpl. now rewrite HPQ, IH.
Qed.

(** The loop of lines 108-112 on any store: it stops with
    [AttributeError] at the first entry whose metadata is not a dict. *)
Lemma filter_loop_any (ls : list (string * loc)) (h : heap) :
  exists h',
    for_in ls (fun item _ => filter_metadata item.2) tt h
    = (if forallb (fun item => metadata_ok (h item.2)) ls
       then inr tt else inl AttributeError, h')
    /\ forall l, metadata_ok (h' l) = metadata_ok (h l).
Proof.
  revert h. induction ls as [|[url a] ls IH]; intros h.
  - exists h. split; [reflexivity | done].
  - simpl. destruct (metadata_ok (h a)) eqn:Hok; simpl.
    + destruct (filter_metadata_run a h Hok) as (h1 & Hrun & Ha & Hne).
      assert (Hsame : forall l, metadata_ok (h1 l) = metadata_ok (h l)).
      { intros l. destruct (decide (l = a)) as [-> | Hl].
        - now rewrite Ha, restrict_metadata_ok_eq.
        - now rewrite Hne. }
      destruct (IH h1) as (h' & Hloop & Hh').
      exists h'. split.
      * unfold mbind, M_bind. rewrite Hrun, Hloop.
        replace (forallb (fun item => metadata_ok (h1 item.2)) ls)
          with (forallb (fun item => metadata_ok (h item.2)) ls); [reflexivity |].
        apply forallb_pointwise. intros item. now rewrite Hsame.
      * intros l. now rewrite Hh', Hsame.
    + exists h. split; [| done].
      unfold mbind, M_bind. now rewrite (filter_metadata_fails a h Hok).
Qed.

(** X12: with [essential_metadata_only], results with an entry whose
    [metadata] is there and is not a dict make [format_output] raise
    [AttributeError], whatever the selector and [include_urls]: the
    selector is not looked at, so an invalid selector is not reported. *)
Theorem format_output_metadata_not_dict results fmt incl (h : heap) url l :
  results !! url = Some l ->
  metadata_ok (h l) = false ->
  (format_output results fmt incl true h).1 = inl AttributeError.
Proof.
  intros Hl Hbad. rewrite format_output_unfold.
  destruct (filter_loop_any (sorted_items results) h) as (h' & -> & _).
  assert (Hall : forallb (fun item => metadata_ok (h item.2)) (sorted_items results)
                 = false).
  { apply not_true_is_false. intros Hall. rewrite forallb_forall in Hall.
    specialize (Hall (url, l)). simpl in Hall. rewrite Hall in Hbad; [done |].
    apply list_elem_of_In, elem_of_sorted_items. exact Hl. }
  now rewrite Hall.
Qed.







(** [sorted(results.items())]: every item once, in ascending order of the
    URLs. *)
Lemma sorted_items_sorted (results : gmap string loc) :
  Sorted String.le (sorted_items results).*1.
Proof.
  unfold sorted_items.
  apply (Sorted_fmap fst (fun p q : string * loc => String.le p.1 q.1));
    [done |].
  apply Sorted_merge_sort. intros p q. apply (total String.le).
Qed.

Lemma sorted_items_permutation (results : gmap string loc) :
  sorted_items results ≡ₚ map_to_list results.
Proof. apply merge_sort_Permutation. Qed.

Lemma sorted_items_NoDup (results : gmap string loc) :
  NoDup (sorted_items results).*1.
Proof.
  rewrite sorted_items_permutation. apply NoDup_fst_map_to_list.
Qed.




Lemma dict_setitem_fresh (k : string) (v : pyval) (d : list (string * pyval)) :
  k ∉ d.*1 -> dict_setitem k v d = (d ++ [(k, v)])%list.
Proof.
  induction d as [|[k' v'] d IH]; simpl; [done |].
  intros Hk. rewrite not_elem_of_cons in Hk. destruct Hk as [Hne Hk].
  rewrite decide_False by congruence. now rewrite IH.
Qed.

Lemma clean_loop (h : heap) (ls : list (string * loc)) :
  forall acc : list (string * pyval),
  NoDup (acc.*1 ++ ls.*1) ->
  (forall item, item ∈ ls -> well_formed_entry (h item.2) = true) ->
  exists ys,
    for_in ls clean_entry acc h = (inr (acc ++ ys)%list, h) /\
    ys.*1 = ls.*1 /\
    Forall2 (fun item v =>
      exists c, h item.2 !! "content" = Some c /\
        v = PyDict [("metadata", from_option id (PyDict []) (h item.2 !! "metadata"));
                    ("content", c)]) ls ys.*2.
Proof.
  induction ls as [|[url data] ls IH]; intros acc Hnd Hwf.
  - exists []. rewrite app_nil_r. repeat split. constructor.
  - assert (Hw : well_formed_entry (h data) = true)
      by (apply (Hwf (url, data)), list_elem_of_here).
    unfold well_formed_entry in Hw.
    rewrite !andb_true_iff, bool_decide_eq_true in Hw.
    destruct Hw as [[[c Hc] _] _].
    simpl in Hnd. apply NoDup_app in Hnd as (Hacc & Hdisj & Hls).
    assert (Hfresh : url ∉ acc.*1).
    { intros Hin. apply (Hdisj url Hin), list_elem_of_here. }
    destruct (IH (acc ++ [(url,
        PyDict [("metadata", from_option id (PyDict []) (h data !! "metadata"));
                ("content", c)])])%list) as (ys & Hrun & Hkeys & HF).
    { rewrite fmap_app. simpl. rewrite <- app_assoc. simpl.
      apply NoDup_app. split; [exact Hacc |]. split; [| exact Hls].
      exact Hdisj. }
    { intros item Hin. apply Hwf. now apply list_elem_of_further. }
    eexists ((url, _) :: ys). split; [| split].
    + cbn. unfold mbind, M_bind. unfold get, getitem. rewrite Hc.
      cbn. rewrite (dict_setitem_fresh _ _ _ Hfresh).
      rewrite Hrun, <- app_assoc. reflexivity.
    + rewrite !fmap_cons. simpl. f_equal. exact Hkeys.
    + rewrite !fmap_cons. simpl. constructor; [eauto | exact HF].
Qed.

(** X15: for [json] without [include_urls], on results of the documented
    shape, the mapping has the URLs of the results as its keys, in
    ascending order, and the value of each is a dict with exactly the two
    keys [metadata] and [content], holding the entry's metadata as the
    call leaves it (an empty dict when the entry has none) and the entry's
    content: [discovered_urls] is left out. *)
Theorem format_output_json_clean results ess (h : heap) :
  map_Forall (fun _ l => well_formed_entry (h l) = true) results ->
  let out := format_output results "json" false ess h in
  exists d,
    out.1 = inr (JsonClean d) /\
    d.*1 = (sorted_items results).*1 /\
    Sorted String.le d.*1 /\
    Forall2 (fun item v =>
      exists c, out.2 item.2 !! "content" = Some c /\
        v = PyDict [("metadata",
                     from_option id (PyDict []) (out.2 item.2 !! "metadata"));
                    ("content", c)])
      (sorted_items results) d.*2.
Proof.
  intros Hwf out. subst out. rewrite format_output_unfold.
  destruct (essential_phase results ess h) as (h1 & -> & Hh1).
  { intros url l Hl. specialize (Hwf url l Hl). simpl in Hwf.
    unfold well_formed_entry in Hwf. rewrite !andb_true_iff in Hwf. tauto. }
  assert (Hwf1 : forall item, item ∈ sorted_items results ->
                   well_formed_entry (h1 item.2) = true).
  { intros [url l] Hin%elem_of_sorted_items. simpl in *. rewrite Hh1.
    specialize (Hwf url l Hin). simpl in Hwf.
    destruct (_ && _); [now apply restrict_well_formed | done]. }
  destruct (clean_loop h1 (sorted_items results) []) as (d & Hrun & Hkeys & HF).
  { simpl. apply sorted_items_NoDup. }
  { exact Hwf1. }
  exists d. rewrite decide_False by discriminate.
  rewrite decide_True by reflexivity.
  unfold mbind, M_bind. change (negb false) with true. cbv beta iota.
  rewrite Hrun. simpl.
  split; [reflexivity |]. split; [exact Hkeys |].
  split; [rewrite Hkeys; apply sorted_items_sorted | exact HF].
Qed.

Lemma filtered_prefix_ext (ok ok' : loc -> bool) (ls : list (string * loc)) :
  (forall l, ok l = ok' l) -> filtered_prefix ok ls = filtered_prefix ok' ls.
Proof.
  intros Hok. induction ls as [|item ls IH]; [reflexivity |].
  simpl. now rewrite Hok, IH.
Qed.

(** The loop of lines 108-112 on any store, in full: the outcome and what
    it has written when it ends. *)
Lemma filter_loop_full (ls : list (string * loc)) (h : heap) :
  exists h',
    for_in ls (fun item _ => filter_metadata item.2) tt h
    = (if forallb (fun item => metadata_ok (h item.2)) ls
       then inr tt else inl AttributeError, h')
    /\ forall l, h' l = if decide (l ∈ filtered_prefix (fun l => metadata_ok (h l)) ls)
                        then restrict (h l) else h l.
Proof.
  revert h. induction ls as [|[url a] ls IH]; intros h.
  - exists h. split; [reflexivity |]. intros l.
    rewrite decide_False; [done | apply not_elem_of_nil].
  - simpl. destruct (metadata_ok (h a)) eqn:Hok; simpl.
    + destruct (filter_metadata_run a h Hok) as (h1 & Hrun & Ha & Hne).
      assert (Hsame : forall l, metadata_ok (h1 l) = metadata_ok (h l)).
      { intros l. destruct (decide (l = a)) as [-> | Hl].
        - now rewrite Ha, restrict_metadata_ok_eq.
        - now rewrite Hne. }
      destruct (IH h1) as (h' & Hloop & Hh').
      rewrite (filtered_prefix_ext _ (fun l => metadata_ok (h l)) ls Hsame) in Hh'.
      exists h'. split.
      * unfold mbind, M_bind. rewrite Hrun, Hloop.
        rewrite (forallb_pointwise _ (fun item => metadata_ok (h item.2)));
          [reflexivity | intros item; apply Hsame].
      * intros l. rewrite Hh'. destruct (decide (l = a)) as [-> | Hl].
        -- rewrite Ha, restrict_idemp.
           rewrite (decide_True (P := a ∈ a :: _)) by apply list_elem_of_here.
           now destruct (decide _).
        -- rewrite Hne by done.
           destruct (decide (l ∈ filtered_prefix _ ls)) as [Hin | Hin].
           ++ rewrite decide_True by now apply list_elem_of_further. done.
           ++ rewrite decide_False; [done |].
              intros [?|?]%elem_of_cons; contradiction.
    + exists h. split.
      * unfold mbind, M_bind. now rewrite (filter_metadata_fails a h Hok).
      * intros l. reflexivity.
Qed.

(** The loops that build the answer see the store only through the
    contents of the objects. *)
Lemma join_ext sep v (h h' : heap) : (join sep v h).1 = (join sep v h').1.
Proof.
  destruct v as [| | | |l|d]; try reflexivity.
  cbn. now destruct (mapM as_str l).
Qed.

Lemma csv_append_with_urls_ext item acc (h h' : heap) :
  (forall l, h l = h' l) ->
  (csv_append_with_urls item acc h).1 = (csv_append_with_urls item acc h').1.
Proof.
  intros Hext. destruct item as [url data].
  unfold csv_append_with_urls, get, getitem, mbind, M_bind. cbv beta.
  rewrite <- (Hext data).
  destruct (h data !! "content"); [| reflexivity].
  cbv beta iota. rewrite <- (Hext data).
  pose proof (join_ext ", "
    (from_option id (PyList []) (h data !! "discovered_urls")) h h') as Hj.
  destruct (join _ _ h) as [[e | s] h1], (join _ _ h') as [[e' | s'] h1'];
    simpl in *; congruence.
Qed.

Lemma csv_append_ext item acc (h h' : heap) :
  (forall l, h l = h' l) ->
  (csv_append item acc h).1 = (csv_append item acc h').1.
Proof.
  intros Hext. destruct item as [url data].
  unfold csv_append, get, getitem, mbind, M_bind. cbv beta.
  rewrite <- (Hext data).
  now destruct (h data !! "content").
Qed.

Lemma clean_entry_ext item acc (h h' : heap) :
  (forall l, h l = h' l) ->
  (clean_entry item acc h).1 = (clean_entry item acc h').1.
Proof.
  intros Hext. destruct item as [url data].
  unfold clean_entry, get, getitem, mbind, M_bind. cbv beta.
  rewrite <- (Hext data).
  now destruct (h data !! "content").
Qed.

Lemma for_in_ext {X S : Type} (body : X -> S -> M S) (ls : list X) (h h' : heap) :
  (forall x acc h0, (body x acc h0).2 = h0) ->
  (forall x acc, (body x acc h).1 = (body x acc h').1) ->
  forall acc, (for_in ls body acc h).1 = (for_in ls body acc h').1.
Proof.
  intros Hro Hext. induction ls as [|x ls IH]; intros acc; [reflexivity |].
  cbn. unfold mbind, M_bind.
  pose proof (Hro x acc h) as H1. pose proof (Hro x acc h') as H2.
  specialize (Hext x acc).
  destruct (body x acc h) as [[e | a] h1], (body x acc h') as [[e' | a'] h1'];
    simpl in *; subst; try congruence.
Qed.

Lemma build_answer_readonly results fmt incl (h : heap) :
  (build_answer results fmt incl h).2 = h.
Proof. apply rest_readonly. Qed.

Lemma build_answer_ext results fmt (incl : bool) (h h' : heap) :
  (forall l, h l = h' l) ->
  (build_answer results fmt incl h).1 = (build_answer results fmt incl h').1.
Proof.
  intros Hext. unfold build_answer.
  destruct (decide (fmt = "csv")); [| destruct (decide (fmt = "json"))];
    [destruct incl | destruct incl | reflexivity]; try reflexivity;
    unfold mbind, M_bind; simpl.
  - pose proof (for_in_ext csv_append_with_urls (sorted_items results) h h'
      csv_append_with_urls_readonly
      (fun x acc => csv_append_with_urls_ext x acc h h' Hext) [csv_header true]) as Hr.
    destruct (for_in _ _ _ h) as [[?|?] ?], (for_in _ _ _ h') as [[?|?] ?];
      simpl in *; congruence.
  - pose proof (for_in_ext csv_append (sorted_items results) h h'
      csv_append_readonly
      (fun x acc => csv_append_ext x acc h h' Hext) [csv_header false]) as Hr.
    destruct (for_in _ _ _ h) as [[?|?] ?], (for_in _ _ _ h') as [[?|?] ?];
      simpl in *; congruence.
  - pose proof (for_in_ext clean_entry (sorted_items results) h h'
      clean_entry_readonly
      (fun x acc => clean_entry_ext x acc h h' Hext) []) as Hr.
    destruct (for_in _ _ _ h) as [[?|?] ?], (for_in _ _ _ h') as [[?|?] ?];
      simpl in *; congruence.
Qed.

(** A call with [essential_metadata_only], in two steps. *)
Lemma format_output_essential results fmt incl (h : heap) :
  exists h1,
    (forall l, h1 l = if decide (l ∈ filtered_prefix (fun l => metadata_ok (h l))
                                      (sorted_items results))
                      then restrict (h l) else h l) /\
    format_output results fmt incl true h
    = if forallb (fun item => metadata_ok (h item.2)) (sorted_items results)
      then build_answer results fmt incl h1
      else (inl AttributeError, h1).
Proof.
  destruct (filter_loop_full (sorted_items results) h) as (h1 & Hrun & Hh1).
  exists h1. split; [exact Hh1 |].
  rewrite format_output_unfold, Hrun.
  destruct (forallb _ _); reflexivity.
Qed.

(** X16: [format_output] with [essential_metadata_only] can be called
    again: on the store the first call leaves, a second call with the
    same arguments ends as the first did (the same answer or the same
    exception) and leaves the contents of every object as the first call
    left them. *)
Theorem format_output_twice results fmt incl (h : heap) :
  let out1 := format_output results fmt incl true h in
  let out2 := format_output results fmt incl true out1.2 in
  out2.1 = out1.1 /\ forall l, out2.2 l = out1.2 l.
Proof.
  intros out1 out2. subst out2 out1.
  destruct (format_output_essential results fmt incl h) as (h1 & Hh1 & ->).
  assert (Hok1 : forall l, metadata_ok (h1 l) = metadata_ok (h l)).
  { intros l. rewrite Hh1.
    destruct (decide _); [apply restrict_metadata_ok_eq | done]. }
  assert (Hstore :
    (if forallb (fun item => metadata_ok (h item.2)) (sorted_items results)
     then build_answer results fmt incl h1
     else (inl AttributeError, h1)).2 = h1).
  { destruct (forallb _ _); [apply build_answer_readonly | reflexivity]. }
  rewrite Hstore.
  destruct (format_output_essential results fmt incl h1) as (h2 & Hh2 & ->).
  rewrite (forallb_pointwise _ (fun item => metadata_ok (h item.2)))
    by (intros item; apply Hok1).
  rewrite (filtered_prefix_ext _ (fun l => metadata_ok (h l)) _ Hok1) in Hh2.
  assert (H21 : forall l, h2 l = h1 l).
  { intros l. rewrite Hh2, Hh1.
    destruct (decide _); [apply restrict_idemp | reflexivity]. }
  destruct (forallb _ _).
  - rewrite !build_answer_readonly. split; [| exact H21].
    apply build_answer_ext. exact H21.
  - simpl. split; [reflexivity | exact H21].
Qed.

Lemma filtered_prefix_locs (ok : loc -> bool) (ls : list (string * loc)) (l : loc) :
  l ∈ filtered_prefix ok ls -> l ∈ ls.*2.
Proof.
  induction ls as [|item ls IH]; simpl; [done |].
  destruct (ok item.2); [| intros []%elem_of_nil].
  intros [-> | Hin]%elem_of_cons.
  - apply list_elem_of_here.
  - apply list_elem_of_further, IH, Hin.
Qed.

(** X17: whatever the arguments and the outcome, [format_output] changes
    nothing but the [metadata] of entries of [results]: every other key
    of every object, and every object that is not an entry of [results],
    is left as it was. *)
Theorem format_output_touches_metadata_only results fmt incl ess (h : heap) :
  let out := format_output results fmt incl ess h in
  (forall l k, k ≠ "metadata" -> out.2 l !! k = h l !! k) /\
  (forall l, (forall url, results !! url ≠ Some l) -> out.2 l = h l).
Proof.
  intros out. subst out. destruct ess.
  - destruct (format_output_essential results fmt incl h) as (h1 & Hh1 & ->).
    assert (Hstore :
      (if forallb (fun item => metadata_ok (h item.2)) (sorted_items results)
       then build_answer results fmt incl h1
       else (inl AttributeError, h1)).2 = h1).
    { destruct (forallb _ _); [apply build_answer_readonly | reflexivity]. }
    rewrite Hstore. split.
    + intros l k Hk. rewrite Hh1.
      destruct (decide _); [now apply restrict_lookup_ne | reflexivity].
    + intros l Hl. rewrite Hh1. rewrite decide_False; [reflexivity |].
      intros Hin%filtered_prefix_locs%elem_of_sorted_locs.
      destruct Hin as [url Hurl]. exact (Hl url Hurl).
  - rewrite format_output_unfold. simpl. rewrite rest_readonly. done.
Qed.

(** ** Fetching *)

Section FetchingFacts.
Variable N : net.

(** X18: [is_image_content_type] lets no [requests.RequestException]
    escape.  When the HEAD request raises one, the function logs one
    error that names the URL and returns False; an exception of another
    kind passes through and nothing is logged. *)
Theorem is_image_content_type_errors (url : string) (tr : list io_obs) :
  let out := is_image_content_type N url tr in
  (forall cls, out.1 ≠ inl (RequestException cls)) /\
  (forall cls, requests_head N url = inl (RequestException cls) ->
     out = (inr false,
            tr ++ [IoHead url;
                   IoLogError ("Error checking content type for " +:+ url)])%list) /\
  (forall e, requests_head N url = inl e -> is_RequestException e = false ->
     out = (inl e, tr ++ [IoHead url])%list).
Proof.
  intros out. subst out.
  unfold is_image_content_type, try_except, perform, logging_error, mbind, IO_bind.
  destruct (requests_head N url) as [e | r] eqn:Hhead; simpl.
  - destruct e as [cls | msg | name]; simpl.
    + split; [intros ?; discriminate |]. split.
      * intros ? _. rewrite <- app_assoc. reflexivity.
      * intros ? [= <-] Hk. discriminate Hk.
    + split; [intros ?; discriminate |]. split.
      * intros ? [=].
      * now intros ? [= <-] _.
    + split; [intros ?; discriminate |]. split.
      * intros ? [=].
      * now intros ? [= <-] _.
  - split; [intros ?; discriminate |]. split; intros ? [=].
Qed.

(** X19: [is_image_content_type] answers True only for a HEAD request
    that succeeded with a [Content-Type] that begins with [image/], and
    for every such request. *)
Theorem is_image_content_type_true (url : string) (tr : list io_obs) :
  (is_image_content_type N url tr).1 = inr true <->
  exists r ct, requests_head N url = inr r /\
               content_type_header r = Some ct /\
               String.prefix "image/" ct = true.
Proof.
  unfold is_image_content_type, try_except, perform, logging_error, mbind, IO_bind.
  destruct (requests_head N url) as [e | r] eqn:Hhead; simpl.
  - split.
    + destruct (is_RequestException e); simpl; discriminate.
    + intros (r & ct & [=] & _).
  - split.
    + intros [= Hp]. destruct (content_type_header r) as [ct|] eqn:Hct.
      * exists r, ct. done.
      * discriminate Hp.
    + intros (r' & ct & [= <-] & Hct & Hp). rewrite Hct. simpl. now rewrite Hp.
Qed.

(** X20: what a stream returned by [get_pdf_data] guarantees.  A buffer
    comes from an argument whose scheme is http or https and whose GET
    request answered with a status outside 400-599, and holds the body of
    that answer; a file object is that of the argument itself, whose
    scheme is neither http nor https and which [open] accepted. *)
Theorem get_pdf_data_returns (x : string) (tr : list io_obs) :
  (forall data, (get_pdf_data N x tr).1 = inr (BytesIO data) ->
     exists scheme r,
       urlparse_scheme N x = inr scheme /\ scheme ∈ ["http"; "https"] /\
       requests_get N x = inr r /\ data = response_content r /\
       ~ (400 <= status_code r < 600)%Z) /\
  (forall path, (get_pdf_data N x tr).1 = inr (FileObject path) ->
     path = x /\ open_rb N x = inr tt /\
     exists scheme,
       urlparse_scheme N x = inr scheme /\ scheme ∉ ["http"; "https"]).
Proof.
  unfold get_pdf_data, answer, perform, raise_for_status, mbind, IO_bind.
  destruct (urlparse_scheme N x) as [e0 | scheme]; [split; intros ? [=] |].
  case_bool_decide as Hs.
  - destruct (requests_get N x) as [e | r]; simpl.
    + split; intros ? [=].
    + destruct ((400 <=? status_code r)%Z && (status_code r <? 600)%Z) eqn:Hst;
        simpl.
      * split; intros ? [=].
      * split; [| intros ? [=]]. intros data [= <-].
        exists scheme, r. split; [reflexivity |]. split; [exact Hs |].
        split; [reflexivity |]. split; [reflexivity |].
        apply andb_false_iff in Hst. lia.
  - destruct (open_rb N x) as [e | []]; simpl.
    + split; intros ? [=].
    + split; [intros ? [=] |]. intros path [= <-].
      split; [reflexivity |]. split; [reflexivity |]. eauto.
Qed.

(** X21: [get_pdf_data] makes at most one request to its surroundings,
    and exactly one when [urlparse] accepts its argument, whatever the
    outcome: a GET of the argument when the scheme is http or https, and
    otherwise an [open] of the argument; it logs nothing. *)
Theorem get_pdf_data_one_action (x : string) (tr : list io_obs) :
  (get_pdf_data N x tr).2 =
    (tr ++ match urlparse_scheme N x with
           | inl _ => []
           | inr scheme =>
               [if bool_decide (scheme ∈ ["http"; "https"])
                then IoGet x else IoOpen x]
           end)%list.
Proof.
  unfold get_pdf_data, answer, perform, raise_for_status, mbind, IO_bind.
  destruct (urlparse_scheme N x) as [e0 | scheme];
    [now rewrite app_nil_r |].
  case_bool_decide as Hs.
  - destruct (requests_get N x) as [e | r]; simpl; [reflexivity |].
    now destruct ((400 <=? status_code r)%Z && (status_code r <? 600)%Z).
  - now destruct (open_rb N x) as [e | []].
Qed.

End FetchingFacts.

(** ** Sample runs of the further properties *)

Ltac by_decision := apply (bool_decide_unpack _); by_evaluation.

Lemma later_after_b_in_past : timestamps_in_past later_after_b.
Proof.
  split; [by_evaluation |]. intros d t Hl.
  change (ledger later_after_b) with ({[ "b.com" := 999%Q ]} : gmap string Q) in Hl.
  apply lookup_singleton_Some in Hl as [_ <-]. by_evaluation.
Defined.

Lemma wait_keeps_timestamps_in_past_witness :
  timestamps_in_past (run quiet (wait "a.com") later_after_b).2.
Proof.
  apply (wait_keeps_timestamps_in_past quiet "a.com" later_after_b).
  - exact quiet_well_behaved.
  - exact later_after_b_in_past.
Defined.

Lemma wait_old_entry_no_sleep_witness :
  (run quiet (wait "b.com") much_later).1 = inr tt /\
  sleeps (trace (run quiet (wait "b.com") much_later).2) = sleeps (trace much_later).
Proof.
  apply (wait_old_entry_no_sleep quiet "b.com" much_later).
  - exact quiet_well_behaved.
  - by_evaluation.
  - by_evaluation.
Defined.

Lemma wait_sleep_bounded_witness :
  exists ss : list Q,
    sleeps (trace (run quiet (wait "b.com") later_after_b).2)
    = (sleeps (trace later_after_b) ++ ss)%list /\
    length ss <= 1 /\
    Forall (fun s => (0 < s)%Q /\ (s <= max_delay (limiter later_after_b))%Q) ss.
Proof.
  apply (wait_sleep_bounded quiet "b.com" later_after_b).
  - exact quiet_well_behaved.
  - by_evaluation.
  - by_evaluation.
Defined.

Lemma wait_fixed_delay_sleep_witness :
  exists s : Q,
    sleeps (trace (run quiet (wait "b.com") later_after_b).2)
    = (sleeps (trace later_after_b) ++ [s])%list /\
    (s == min_delay (limiter later_after_b)
          - (reading quiet later_after_b - entry (ledger later_after_b) "b.com"))%Q.
Proof.
  apply (wait_fixed_delay_sleep quiet "b.com" later_after_b); by_evaluation.
Defined.

Lemma is_image_file_extension_last_segment_witness :
  is_image_file_extension ("http://site.org/photo" +:+ "." +:+ "PNG")
  = is_image_file_extension "PNG".
Proof.
  apply (is_image_file_extension_last_segment "http://site.org/photo" "PNG").
  by_decision.
Defined.

Lemma set_filename_extension_witness :
  last (split "." (set_filename "csv" "2024-05-01_10.30")) = Some "csv" /\
  is_image_file_extension (set_filename "csv" "2024-05-01_10.30")
  = is_image_file_extension "csv".
Proof.
  apply (set_filename_extension "csv" "2024-05-01_10.30"). by_decision.
Defined.

Lemma set_filename_injective_witness :
  "json" = "json" /\ "t1" = "t1".
Proof.
  apply (set_filename_injective "json" "json" "t1" "t1");
    [by_decision | by_decision | reflexivity].
Defined.


Lemma format_output_metadata_not_dict_witness :
  (format_output malformed_results "csv" false true sample_heap).1
  = inl AttributeError.
Proof.
  apply (format_output_metadata_not_dict malformed_results "csv" false sample_heap
           "http://c" 2); by_evaluation.
Defined.


Lemma format_output_json_clean_witness :
  let out := format_output sample_results "json" false true sample_heap in
  exists d,
    out.1 = inr (JsonClean d) /\
    d.*1 = (sorted_items sample_results).*1 /\
    Sorted String.le d.*1 /\
    Forall2 (fun item v =>
      exists c, out.2 item.2 !! "content" = Some c /\
        v = PyDict [("metadata",
                     from_option id (PyDict []) (out.2 item.2 !! "metadata"));
                    ("content", c)])
      (sorted_items sample_results) d.*2.
Proof.
  exact (format_output_json_clean sample_results true sample_heap
           sample_well_formed).
Defined.

(** The host that cannot be reached: one error is logged, the answer is
    False. *)
Lemma is_image_content_type_errors_witness :
  is_image_content_type sample_net "http://down/a.png" []
  = (inr false,
     [IoHead "http://down/a.png";
      IoLogError "Error checking content type for http://down/a.png"]).
Proof.
  destruct (is_image_content_type_errors sample_net "http://down/a.png" [])
    as (_ & Hcaught & _).
  apply (Hcaught "ConnectionError"). reflexivity.
Defined.

Lemma get_pdf_data_returns_witness :
  exists scheme r,
    urlparse_scheme sample_net "http://ok/a.pdf" = inr scheme /\
    scheme ∈ ["http"; "https"] /\
    requests_get sample_net "http://ok/a.pdf" = inr r /\
    "%PDF" = response_content r /\
    ~ (400 <= status_code r < 600)%Z.
Proof.
  destruct (get_pdf_data_returns sample_net "http://ok/a.pdf" []) as (Hbuf & _).
  apply (Hbuf "%PDF"). reflexivity.
Defined.

(** The functions, run on the samples. *)
Example is_image_file_extension_samples :
  is_image_file_extension "a/b/photo.JPG" = true /\
  is_image_file_extension "song.mp3" = true /\
  is_image_file_extension "png" = true /\
  is_image_file_extension "archive.tar.gz" = false /\
  is_image_file_extension "v1.2/readme" = false /\
  is_image_file_extension "" = false.
Proof. repeat split; by_evaluation. Qed.

Example get_pdf_data_samples :
  get_pdf_data sample_net "http://ok/a.pdf" [] = (inr (BytesIO "%PDF"), [IoGet "http://ok/a.pdf"]) /\
  get_pdf_data sample_net "http://ok/gone.pdf" []
    = (inl (RequestException "HTTPError"), [IoGet "http://ok/gone.pdf"]) /\
  get_pdf_data sample_net "/tmp/a.pdf" [] = (inr (FileObject "/tmp/a.pdf"), [IoOpen "/tmp/a.pdf"]) /\
  get_pdf_data sample_net "/tmp/b.pdf" []
    = (inl (OSError "No such file or directory"), [IoOpen "/tmp/b.pdf"]).
Proof. repeat split; by_evaluation. Qed.
